(** * async_service.trio: the Trio service manager

    A shallow embedding of [src/async_service/trio.py].

    - Python objects that are shared and mutated ([_Task] instances) live in
      an object store indexed by their identity; the task DAG, a [dict] whose
      iteration order is its insertion order, is an association list over
      these identities.
    - A method of [TrioManager] is a computation in the monad [M]: it takes the
      manager, returns it updated, and either completes normally or raises.
      State changes made before an exception is raised persist, as in Python.
    - An [async] method is cut at its suspension points into segments that run
      atomically under Trio's cooperative scheduler; what happens while the
      method is suspended is a parameter of the model. *)

From stdpp Require Import base option list functions strings numbers.

Local Open Scope string_scope.
Local Open Scope Z_scope.
Local Open Scope list_scope.

(** ** Identities *)

(** Identity of a [_Task] object (its [_id], a fresh [uuid4]). *)
Abbreviation task_ref := nat.
(** Identity of a [trio.hazmat.Task]; parent lookup compares them with [is]. *)
Abbreviation trio_task_id := nat.
(** Identity of a [ServiceAPI] object. *)
Abbreviation service_ref := nat.
(** Identity of a manager object. *)
Abbreviation manager_ref := nat.

(** ** Exceptions *)

(** What a [ServiceCancelled] raised by the external API guard reports. *)
Inductive cancelled_info :=
| HasNotBeenRun (func : nat)
| NotRunning (func : nat) (started running stopping finished : bool).

(** A Trio cancel scope: the one of a [_Task], the one of the task nursery or
    of the system nursery of [run], or one that encloses the call of [run]. *)
Inductive scope :=
| TaskScope (task : task_ref)
| TaskNurseryScope
| SystemNurseryScope
| OuterScope.

#[global] Instance scope_eq_dec : EqDecision scope.
Proof. solve_decision. Defined.

(** The exceptions that occur in the module.  [Cancelled] (which Trio raises
    on behalf of the cancelled scope it names) and [MultiError] derive from
    [BaseException] only; the others derive from [Exception]. *)
#[warnings="-register-all"]
Inductive exn :=
| LifecycleError (msg : string)
| DaemonTaskExit (msg : string)
| ServiceCancelled (info : cancelled_info)
| KeyError (key : nat)
| AttributeError (attr : string)
| UserError (tag : nat)
| Cancelled (owner : scope)
| MultiError (excs : list exn).

Definition is_Exception (e : exn) : bool :=
  match e with
  | Cancelled _ | MultiError _ => false
  | _ => true
  end.

(** [sys.exc_info()]: the type, the value and the traceback of the exception
    being handled. *)
Inductive exc_type :=
| TLifecycleError | TDaemonTaskExit | TServiceCancelled | TKeyError | TAttributeError
| TUserError | TCancelled | TMultiError.

Definition type_of (e : exn) : exc_type :=
  match e with
  | LifecycleError _ => TLifecycleError
  | DaemonTaskExit _ => TDaemonTaskExit
  | ServiceCancelled _ => TServiceCancelled
  | KeyError _ => TKeyError
  | AttributeError _ => TAttributeError
  | UserError _ => TUserError
  | Cancelled _ => TCancelled
  | MultiError _ => TMultiError
  end.

(** The traceback object of an exception that was caught. *)
Inductive traceback := tb_of (e : exn).

Definition EXC_INFO : Type := exc_type * exn * traceback.

Definition sys_exc_info (err : exn) : EXC_INFO := (type_of err, err, tb_of err).

(** [exc_value.with_traceback(exc_tb)] returns [exc_value] itself. *)
Definition with_traceback (exc_value : exn) (exc_tb : traceback) : exn := exc_value.

(** ** Tasks *)

(** What a task runs: a user coroutine function, or the bound method [run] of
    a manager built for a child service. *)
Inductive callable :=
| AsyncFn (fn : nat)
| ManagerRun (manager : manager_ref).

#[global] Instance callable_eq_dec : EqDecision callable.
Proof. solve_decision. Defined.

(** [class _Task].  [done] is a [trio.Event] (its flag), [cancel_scope] a
    [trio.CancelScope] (whether [cancel()] was called on it). *)
Record _Task := mk_Task {
  name : string;
  daemon : bool;
  done : bool;
  cancel_scope : bool;
  parent : option task_ref;
  _trio_task : option trio_task_id
}.

(** [_Task.__init__]. *)
Definition _Task__init__ (name : string) (daemon : bool) (parent : option task_ref)
    (trio_task : option trio_task_id) : _Task :=
  {| name := name; daemon := daemon; done := false; cancel_scope := false;
     parent := parent; _trio_task := trio_task |}.

Definition has_trio_task (t : _Task) : bool :=
  match _trio_task t with Some _ => true | None => false end.

Definition with_done (t : _Task) : _Task :=
  {| name := name t; daemon := daemon t; done := true; cancel_scope := cancel_scope t;
     parent := parent t; _trio_task := _trio_task t |}.

Definition with_cancel_scope_cancelled (t : _Task) : _Task :=
  {| name := name t; daemon := daemon t; done := done t; cancel_scope := true;
     parent := parent t; _trio_task := _trio_task t |}.

Definition with_trio_task (v : trio_task_id) (t : _Task) : _Task :=
  {| name := name t; daemon := daemon t; done := done t; cancel_scope := cancel_scope t;
     parent := parent t; _trio_task := Some v |}.

(** ** Nurseries *)

(** One [start_soon] call on the task nursery. *)
Record spawn := mk_spawn {
  spawn_task : task_ref;
  spawn_fn : callable;
  spawn_daemon : bool;
  spawn_name : string
}.

(** What [run] starts in its two nurseries. *)
Inductive system_fn := Handle_cancelled.

Inductive task_fn :=
| Handle_run
| Managed (s : spawn).

#[global] Instance spawn_eq_dec : EqDecision spawn.
Proof. solve_decision. Defined.

#[global] Instance task_fn_eq_dec : EqDecision task_fn.
Proof. solve_decision. Defined.

(** A [trio] nursery: what has been handed to [start_soon], in call order, and
    whether its cancel scope was cancelled. *)
Record Nursery (A : Type) := mk_Nursery {
  started_soon : list A;
  nursery_cancelled : bool
}.
Arguments mk_Nursery {A} _ _.
Arguments started_soon {A} _.
Arguments nursery_cancelled {A} _.

Definition open_nursery {A : Type} : Nursery A :=
  {| started_soon := []; nursery_cancelled := false |}.

Definition nursery_start_soon {A : Type} (a : A) (n : Nursery A) : Nursery A :=
  {| started_soon := started_soon n ++ [a]; nursery_cancelled := nursery_cancelled n |}.

Definition nursery_cancel {A : Type} (n : Nursery A) : Nursery A :=
  {| started_soon := started_soon n; nursery_cancelled := true |}.

(** ** The manager *)

(** The task DAG, [Dict[_Task, List[_Task]]], in insertion order. *)
Definition Dag : Type := list (task_ref * list task_ref).

(** [class TrioManager].  [self_ref] is the identity of the object and [cls]
    is [type(self)].  [objs] is the store of the
    [_Task] objects, and [next_ref] the identity that the next [_Task] created
    receives: identities below it are those of the objects created so far.
    The nurseries that [run] opens are kept with the manager. *)
Record TrioManager := mk_TrioManager {
  self_ref : manager_ref;
  cls : nat;
  _service : service_ref;
  _errors : list EXC_INFO;
  _started : bool;
  _cancelled : bool;
  _stopping : bool;
  _finished : bool;
  _run_lock : bool;
  _service_task_dag : Dag;
  _system_nursery : option (Nursery system_fn);
  _task_nursery : option (Nursery task_fn);
  objs : task_ref → _Task;
  next_ref : task_ref
}.

(** [TrioManager.__init__] (with [BaseManager.__init__], which stores the
    service and an empty error list). *)
Definition TrioManager__init__ (self_ref : manager_ref) (cls : nat)
    (service : service_ref) : TrioManager :=
  {| self_ref := self_ref; cls := cls; _service := service; _errors := [];
     _started := false; _cancelled := false; _stopping := false; _finished := false;
     _run_lock := false; _service_task_dag := [];
     _system_nursery := None; _task_nursery := None;
     objs := λ _, _Task__init__ "" false None None; next_ref := 0%nat |}.

Definition with_errors (v : list EXC_INFO) (m : TrioManager) : TrioManager :=
  {| self_ref := self_ref m; cls := cls m; _service := _service m; _errors := v;
     _started := _started m; _cancelled := _cancelled m; _stopping := _stopping m;
     _finished := _finished m; _run_lock := _run_lock m;
     _service_task_dag := _service_task_dag m;
     _system_nursery := _system_nursery m; _task_nursery := _task_nursery m;
     objs := objs m; next_ref := next_ref m |}.

Definition with_started (m : TrioManager) : TrioManager :=
  {| self_ref := self_ref m; cls := cls m; _service := _service m; _errors := _errors m;
     _started := true; _cancelled := _cancelled m; _stopping := _stopping m;
     _finished := _finished m; _run_lock := _run_lock m;
     _service_task_dag := _service_task_dag m;
     _system_nursery := _system_nursery m; _task_nursery := _task_nursery m;
     objs := objs m; next_ref := next_ref m |}.

Definition with_cancelled (m : TrioManager) : TrioManager :=
  {| self_ref := self_ref m; cls := cls m; _service := _service m; _errors := _errors m;
     _started := _started m; _cancelled := true; _stopping := _stopping m;
     _finished := _finished m; _run_lock := _run_lock m;
     _service_task_dag := _service_task_dag m;
     _system_nursery := _system_nursery m; _task_nursery := _task_nursery m;
     objs := objs m; next_ref := next_ref m |}.

Definition with_stopping (m : TrioManager) : TrioManager :=
  {| self_ref := self_ref m; cls := cls m; _service := _service m; _errors := _errors m;
     _started := _started m; _cancelled := _cancelled m; _stopping := true;
     _finished := _finished m; _run_lock := _run_lock m;
     _service_task_dag := _service_task_dag m;
     _system_nursery := _system_nursery m; _task_nursery := _task_nursery m;
     objs := objs m; next_ref := next_ref m |}.

Definition with_finished (m : TrioManager) : TrioManager :=
  {| self_ref := self_ref m; cls := cls m; _service := _service m; _errors := _errors m;
     _started := _started m; _cancelled := _cancelled m; _stopping := _stopping m;
     _finished := true; _run_lock := _run_lock m;
     _service_task_dag := _service_task_dag m;
     _system_nursery := _system_nursery m; _task_nursery := _task_nursery m;
     objs := objs m; next_ref := next_ref m |}.

Definition with_run_lock (v : bool) (m : TrioManager) : TrioManager :=
  {| self_ref := self_ref m; cls := cls m; _service := _service m; _errors := _errors m;
     _started := _started m; _cancelled := _cancelled m; _stopping := _stopping m;
     _finished := _finished m; _run_lock := v;
     _service_task_dag := _service_task_dag m;
     _system_nursery := _system_nursery m; _task_nursery := _task_nursery m;
     objs := objs m; next_ref := next_ref m |}.

Definition with_dag (v : Dag) (m : TrioManager) : TrioManager :=
  {| self_ref := self_ref m; cls := cls m; _service := _service m; _errors := _errors m;
     _started := _started m; _cancelled := _cancelled m; _stopping := _stopping m;
     _finished := _finished m; _run_lock := _run_lock m;
     _service_task_dag := v;
     _system_nursery := _system_nursery m; _task_nursery := _task_nursery m;
     objs := objs m; next_ref := next_ref m |}.

Definition with_system_nursery (v : option (Nursery system_fn)) (m : TrioManager) : TrioManager :=
  {| self_ref := self_ref m; cls := cls m; _service := _service m; _errors := _errors m;
     _started := _started m; _cancelled := _cancelled m; _stopping := _stopping m;
     _finished := _finished m; _run_lock := _run_lock m;
     _service_task_dag := _service_task_dag m;
     _system_nursery := v; _task_nursery := _task_nursery m;
     objs := objs m; next_ref := next_ref m |}.

Definition with_task_nursery (v : option (Nursery task_fn)) (m : TrioManager) : TrioManager :=
  {| self_ref := self_ref m; cls := cls m; _service := _service m; _errors := _errors m;
     _started := _started m; _cancelled := _cancelled m; _stopping := _stopping m;
     _finished := _finished m; _run_lock := _run_lock m;
     _service_task_dag := _service_task_dag m;
     _system_nursery := _system_nursery m; _task_nursery := v;
     objs := objs m; next_ref := next_ref m |}.

Definition with_next_ref (v : task_ref) (m : TrioManager) : TrioManager :=
  {| self_ref := self_ref m; cls := cls m; _service := _service m; _errors := _errors m;
     _started := _started m; _cancelled := _cancelled m; _stopping := _stopping m;
     _finished := _finished m; _run_lock := _run_lock m;
     _service_task_dag := _service_task_dag m;
     _system_nursery := _system_nursery m; _task_nursery := _task_nursery m;
     objs := objs m; next_ref := v |}.

Definition with_objs (v : task_ref → _Task) (m : TrioManager) : TrioManager :=
  {| self_ref := self_ref m; cls := cls m; _service := _service m; _errors := _errors m;
     _started := _started m; _cancelled := _cancelled m; _stopping := _stopping m;
     _finished := _finished m; _run_lock := _run_lock m;
     _service_task_dag := _service_task_dag m;
     _system_nursery := _system_nursery m; _task_nursery := _task_nursery m;
     objs := v; next_ref := next_ref m |}.

(** ** The monad of manager methods *)

Inductive completion (A : Type) :=
| Normal (a : A)
| Raised (e : exn).
Arguments Normal {A} _.
Arguments Raised {A} _.

Definition M (A : Type) : Type := TrioManager → completion A * TrioManager.

#[global] Instance M_ret : MRet M := λ A a m, (Normal a, m).
#[global] Instance M_bind : MBind M := λ A B f c m,
  match c m with
  | (Normal a, m') => f a m'
  | (Raised e, m') => (Raised e, m')
  end.

Definition raise {A : Type} (e : exn) : M A := λ m, (Raised e, m).
Definition gets {A : Type} (f : TrioManager → A) : M A := λ m, (Normal (f m), m).
Definition modify (f : TrioManager → TrioManager) : M unit := λ m, (Normal tt, f m).
Definition pass : M unit := mret tt.

(** [try: body / except Exception as err: handler / else: orelse]. *)
Definition try_except_else {A B : Type} (body : M A) (handler : exn → M B)
    (orelse : A → M B) : M B := λ m,
  match body m with
  | (Normal a, m') => orelse a m'
  | (Raised e, m') => if is_Exception e then handler e m' else (Raised e, m')
  end.

(** [try: body / finally: final]: [final] runs on every exit of [body]; an
    exception of [final] replaces the completion of [body]. *)
Definition try_finally {A : Type} (body : M A) (final : M unit) : M A := λ m,
  match body m with
  | (r, m') =>
      match final m' with
      | (Normal _, m'') => (r, m'')
      | (Raised e, m'') => (Raised e, m'')
      end
  end.

(** How a [with scope:] block is left when its body completed with [r]: the
    scope absorbs the [Cancelled] that Trio raised on its behalf; every other
    exception passes through. *)
Definition leave_scope (s : scope) (r : completion unit) : completion unit :=
  match r with
  | Raised (Cancelled owner) => if decide (owner = s) then Normal tt else r
  | _ => r
  end.

(** [with scope: body]. *)
Definition with_scope (s : scope) (body : M unit) : M unit := λ m,
  let '(r, m') := body m in (leave_scope s r, m').

(** ** Event API mirror *)

Definition is_started (m : TrioManager) : bool := _started m.
Definition is_cancelled (m : TrioManager) : bool := _cancelled m.
Definition is_finished (m : TrioManager) : bool := _finished m.
Definition is_stopping (m : TrioManager) : bool := _stopping m && negb (is_finished m).

(** Modelled from the spec: [BaseManager.is_running], of [async_service/base.py],
    is not part of the sources.  The spec defines the derived state
    "running := started ∧ ¬stopping ∧ ¬finished". *)
Definition is_running (m : TrioManager) : bool :=
  _started m && negb (_stopping m) && negb (_finished m).

(** Modelled from the spec: [BaseManager.did_error], of [async_service/base.py],
    is not part of the sources.  The spec has [run] fail "if the error buffer
    is non-empty". *)
Definition did_error (m : TrioManager) : bool :=
  match _errors m with [] => false | _ => true end.

(** ** Control API *)

(** [TrioManager.cancel]. *)
Definition cancel : M unit := λ m,
  if negb (is_started m) then
    raise (LifecycleError "Cannot cancel as service which was never started.") m
  else if negb (is_running m) then
    pass m
  else
    modify with_cancelled m.

(** ** The task DAG as a [dict] *)

Definition dict_keys (d : Dag) : list task_ref := d.*1.

(** [d[k]], when [k] is a key. *)
Fixpoint dict_get (k : task_ref) (d : Dag) : option (list task_ref) :=
  match d with
  | [] => None
  | (k', v) :: d' => if decide (k = k') then Some v else dict_get k d'
  end.

(** [d[k] = v]: replaces the value of an existing key in place, and adds a
    new key last. *)
Fixpoint dict_setitem (k : task_ref) (v : list task_ref) (d : Dag) : Dag :=
  match d with
  | [] => [(k, v)]
  | (k', v') :: d' =>
      if decide (k = k') then (k', v) :: d' else (k', v') :: dict_setitem k v d'
  end.

(** [d[k].append(x)]; [None] stands for the [KeyError] of [d[k]]. *)
Definition dict_append (k x : task_ref) (d : Dag) : option Dag :=
  match dict_get k d with
  | Some v => Some (dict_setitem k (v ++ [x]) d)
  | None => None
  end.

(** ** Task objects in the store *)

(** [_Task(...)]: a new object, under a fresh identity. *)
Definition new_Task (name : string) (daemon : bool) (parent : option task_ref)
    (trio_task : option trio_task_id) : M task_ref := λ m,
  let task := next_ref m in
  (Normal task,
   with_next_ref (S task)
     (with_objs (<[task := _Task__init__ name daemon parent trio_task]> (objs m)) m)).

(** The setter of [_Task.trio_task]. *)
Definition set_trio_task (task : task_ref) (value : trio_task_id) : M unit := λ m,
  match _trio_task (objs m task) with
  | Some _ => raise (LifecycleError "Task already set: ...") m
  | None => modify (with_objs (<[task := with_trio_task value (objs m task)]> (objs m))) m
  end.

(** [task.done.set()]. *)
Definition done_set (task : task_ref) : M unit :=
  modify (λ m, with_objs (<[task := with_done (objs m task)]> (objs m)) m).

(** [task.cancel_scope.cancel()]. *)
Definition cancel_scope_cancel (task : task_ref) : M unit :=
  modify (λ m, with_objs (<[task := with_cancel_scope_cancelled (objs m task)]> (objs m)) m).

(** [task.done.is_set()]. *)
Definition done_is_set (m : TrioManager) (task : task_ref) : bool := done (objs m task).

(** [self._errors.append(sys.exc_info())], while [err] is being handled. *)
Definition errors_append (err : exn) : M unit :=
  modify (λ m, with_errors (_errors m ++ [sys_exc_info err]) m).

(** ** Stats *)

Record TaskStats := mk_TaskStats { total_count : Z; finished_count : Z }.
Record Stats := mk_Stats { tasks : TaskStats }.

Definition len {A : Type} (l : list A) : Z := Z.of_nat (length l).

(** [TrioManager.stats]. *)
Definition stats (m : TrioManager) : Stats :=
  let total_count := Z.max 0 (len (_service_task_dag m) - 1) in
  let finished_count :=
    Z.min total_count
      (len (filter (λ task, done_is_set m task = true) (dict_keys (_service_task_dag m)))) in
  {| tasks := {| total_count := total_count; finished_count := finished_count |} |}.

(** ** Parent inference *)

(** The loop of [_get_parent_task] over the keys of the DAG.  A task without
    a Trio task is skipped, so the getter of [_Task.trio_task] never raises
    here. *)
Fixpoint _get_parent_task_loop (objs : task_ref → _Task) (keys : list task_ref)
    (trio_task : trio_task_id) : option task_ref :=
  match keys with
  | [] => None
  | task :: keys' =>
      if negb (has_trio_task (objs task)) then
        _get_parent_task_loop objs keys' trio_task
      else if decide (Some trio_task = _trio_task (objs task)) then
        Some task
      else
        _get_parent_task_loop objs keys' trio_task
  end.

(** [TrioManager._get_parent_task]. *)
Definition _get_parent_task (m : TrioManager) (trio_task : trio_task_id) : option task_ref :=
  _get_parent_task_loop (objs m) (dict_keys (_service_task_dag m)) trio_task.

(** ** Managed tasks *)

(** [self._task_nursery.start_soon(...)]; the attribute exists once [run]
    has assigned it. *)
Definition task_nursery_start_soon (f : task_fn) : M unit := λ m,
  match _task_nursery m with
  | Some n => modify (with_task_nursery (Some (nursery_start_soon f n))) m
  | None => raise (AttributeError "_task_nursery") m
  end.

(** [self._task_nursery.cancel_scope.cancel()]. *)
Definition task_nursery_cancel : M unit := λ m,
  match _task_nursery m with
  | Some n => modify (with_task_nursery (Some (nursery_cancel n))) m
  | None => raise (AttributeError "_task_nursery") m
  end.

(** The part of [_run_and_manage_task] under [try: ... finally:].
    [async_fn] is what [await async_fn(...)] does to the manager, until it
    returns or raises. *)
Definition managed_body (async_fn : M unit) (daemon : bool) (name : string)
    (task : task_ref) : M unit :=
  try_finally
    (with_scope (TaskScope task)
       (try_except_else async_fn
          (λ err, errors_append err;; cancel)
          (λ _,
             if daemon then
               cancel;;
               raise (DaemonTaskExit ("Daemon task " +:+ name +:+ " exited"))
             else pass)))
    (done_set task).

(** [TrioManager._run_and_manage_task], run by the Trio task [current_task]. *)
Definition _run_and_manage_task (current_task : trio_task_id) (async_fn : M unit)
    (daemon : bool) (name : string) (task : task_ref) : M unit :=
  set_trio_task task current_task;;
  managed_body async_fn daemon name task.

(** The part of [_handle_run] under [try: ... finally:]; [service_run] is
    what [await self._service.run()] does to the manager. *)
Definition handle_run_body (service_run : M unit) (task : task_ref) : M unit :=
  try_finally
    (try_except_else (with_scope (TaskScope task) service_run)
       (λ err, errors_append err;; cancel)
       (λ _, pass))
    (done_set task).

(** The start of [_handle_run]: the task of the service body enters the DAG. *)
Definition handle_run_enter (current_task : trio_task_id) : M task_ref :=
  task ← new_Task "run" false None (Some current_task);
  modify (λ m, with_dag (dict_setitem task [] (_service_task_dag m)) m);;
  mret task.


(** ** Running the manager *)

(** The failures of the error buffer as [run] hands them to [MultiError]. *)
Definition errors_values (errors : list EXC_INFO) : list exn :=
  map (λ '(_, exc_value, exc_tb), with_traceback exc_value exc_tb) errors.

(** The end of [run]: [if self.did_error: raise trio.MultiError(...)].  The
    aggregate is kept as the sequence it was built from, also when that
    sequence has a single failure. *)
Definition raise_errors : M unit := λ m,
  if did_error m then raise (MultiError (errors_values (_errors m))) m else pass m.

(** [system_nursery.cancel_scope.cancel()]. *)
Definition system_nursery_cancel : M unit :=
  modify (λ m, with_system_nursery (nursery_cancel <$> _system_nursery m) m).

(** The body of the task nursery block of [run], up to the point where the
    block waits for the tasks of the nursery. *)
Definition run_open_task_nursery : M unit :=
  modify (with_task_nursery (Some open_nursery));;
  task_nursery_start_soon Handle_run;;
  modify with_started.


(** [run] up to the suspension in [async with self._run_lock], which takes
    the lock before it yields to the scheduler. *)
Definition run_acquire : M unit := λ m,
  if _run_lock m then
    raise (LifecycleError
      "Cannot run a service with the run lock already engaged.  Already started?") m
  else if is_started m then
    raise (LifecycleError "Cannot run a service which is already started.") m
  else
    modify (with_run_lock true) m.

(** [run] from there up to its suspension in the task nursery block. *)
Definition run_start : M unit :=
  modify (with_system_nursery (Some (nursery_start_soon Handle_cancelled open_nursery)));;
  run_open_task_nursery.

(** [run] from the exit of the task nursery block, which is left with the
    completion [exit]. *)
Definition run_leave (exit : completion unit) : M unit :=
  try_finally
    (try_finally
       (with_scope SystemNurseryScope
          (try_finally
             (try_except_else
                (with_scope TaskNurseryScope (λ m, (exit, m)))
                (λ err, errors_append err)
                (λ _, pass))
             system_nursery_cancel))
       (modify (with_run_lock false)))
    (modify with_stopping;; modify with_finished);;
  raise_errors.

(** ** Spawning and scheduling *)

(** What [get_task_name] is applied to. *)
Inductive nameable :=
| OfCallable (c : callable)
| OfService (s : service_ref).

Section Manager.

(** [get_task_name], of [async_service/_utils.py], is not part of the sources:
    the manager is modelled for any such function. *)
Variable get_task_name : nameable → option string → string.

(** [self._service_task_dag[parent].append(task)]. *)
Definition dag_append (parent task : task_ref) : M unit := λ m,
  match dict_append parent task (_service_task_dag m) with
  | Some d => modify (with_dag d) m
  | None => raise (KeyError parent) m
  end.

(** [TrioManager.run_task], called by the Trio task [current_task]. *)
Definition run_task (current_task : trio_task_id) (async_fn : callable)
    (daemon : bool) (name : option string) : M unit := λ m,
  if negb (is_running m) then
    raise (LifecycleError "Tasks may not be scheduled if the service is not running") m
  else
    let task_name := get_task_name (OfCallable async_fn) name in
    if is_running m && is_cancelled m then
      pass m
    else
      (task ← new_Task task_name daemon (_get_parent_task m current_task) None;
       ((λ m, match parent (objs m task) with
              | None => pass m
              | Some p => dag_append p task m
              end) : M unit);;
       modify (λ m, with_dag (dict_setitem task [] (_service_task_dag m)) m);;
       task_nursery_start_soon
         (Managed {| spawn_task := task; spawn_fn := async_fn;
                     spawn_daemon := daemon; spawn_name := task_name |})) m.

(** [TrioManager.run_child_service]; [child_ref] is the identity of the
    manager object that [type(self)(service)] creates. *)
Definition run_child_service (current_task : trio_task_id) (child_ref : manager_ref)
    (service : service_ref) (daemon : bool) (name : option string) : M TrioManager := λ m,
  let child_manager := TrioManager__init__ child_ref (cls m) service in
  let task_name := get_task_name (OfService service) name in
  (run_task current_task (ManagerRun child_ref) daemon (Some task_name);;
   mret child_manager) m.


(** ** The cancellation handler *)

Definition dag_children (d : Dag) (task : task_ref) : list task_ref :=
  default [] (dict_get task d).

(** The keys of the DAG that are in no list of children. *)
Definition dag_roots (d : Dag) : list task_ref :=
  filter (λ k, k ∉ mjoin (d.*2)) (dict_keys d).

(** Modelled from the spec: [iter_dag], of [async_service/_utils.py], is not
    part of the sources.  The spec has it iterate the nodes "in reverse
    topological order (leaves first)", with the tie-break "among siblings,
    cancel in reverse insertion order; between subtrees, finish one subtree
    before advancing to the next": a post-order walk from each root, latest
    sibling first.  The walk is bounded by the number of nodes, the longest
    path a DAG can have. *)
Fixpoint iter_subtree (fuel : nat) (d : Dag) (task : task_ref) : list task_ref :=
  match fuel with
  | O => []
  | S fuel' =>
      (reverse (dag_children d task) ≫= iter_subtree fuel' d) ++ [task]
  end.

Definition iter_dag (d : Dag) : list task_ref :=
  reverse (dag_roots d) ≫= iter_subtree (length d) d.

(** Where [_handle_cancelled] stands: suspended in
    [await self._cancelled.wait()]; at the head of the [for] loop over a
    snapshot of the DAG, with the tasks already dealt with and those still to
    come; suspended in [await task.done.wait()]; or returned. *)
Inductive handler_state :=
| WaitCancelled
| Iterating (snapshot : Dag) (visited rest : list task_ref)
| WaitDone (snapshot : Dag) (visited : list task_ref) (task : task_ref)
    (rest : list task_ref)
| Returned.

(** One atomic segment of [_handle_cancelled]; [None] when the handler is
    suspended on an event that is not set, or has returned.  A wait on an
    event that is set goes on. *)
Definition _handle_cancelled (h : handler_state) (m : TrioManager)
    : option (handler_state * TrioManager) :=
  match h with
  | WaitCancelled =>
      if is_cancelled m then
        let snapshot := _service_task_dag m in
        Some (Iterating snapshot [] (iter_dag snapshot), m)
      else None
  | Iterating snapshot visited (task :: rest) =>
      Some (WaitDone snapshot visited task rest, (cancel_scope_cancel task m).2)
  | WaitDone snapshot visited task rest =>
      if done_is_set m task then Some (Iterating snapshot (visited ++ [task]) rest, m)
      else None
  | Iterating snapshot visited [] =>
      Some (Returned, (task_nursery_cancel m).2)
  | Returned => None
  end.

(** ** The manager under the scheduler *)

(** The manager with the coroutines that Trio runs for it: the cancellation
    handler and, once [_handle_run] has begun, the task of the service body. *)
Record System := mk_System {
  mgr : TrioManager;
  handler : handler_state;
  run_task_ref : option task_ref
}.

(** What the scheduler can run next: a segment of [run], of [_handle_run], of
    the wrapper of a spawned task or of the cancellation handler, or a call
    of [run_task] or [cancel] made by some running task.  A completion is
    how the awaited body ended. *)
Inductive label :=
| Run_acquire
| Run_start
| Run_leave (exit : completion unit)
| Handle_run_enter (current_task : trio_task_id)
| Handle_run_exit (body : completion unit)
| Task_enter (s : spawn) (current_task : trio_task_id)
| Task_exit (s : spawn) (body : completion unit)
| Call_run_task (current_task : trio_task_id) (async_fn : callable) (daemon : bool)
    (name : option string)
| Call_cancel
| Handler_step.

(** [f] was handed to the task nursery. *)
Definition task_nursery_has (m : TrioManager) (f : task_fn) : bool :=
  match _task_nursery m with
  | Some n => bool_decide (f ∈ started_soon n)
  | None => false
  end.

(** Trio gives every task it starts a task object of its own. *)
Definition trio_task_unused (m : TrioManager) (t : trio_task_id) : bool :=
  forallb (λ task, negb (bool_decide (_trio_task (objs m task) = Some t)))
    (dict_keys (_service_task_dag m)).

(** Every task the task nursery was given has exited. *)
Definition task_nursery_drained (s : System) : bool :=
  match _task_nursery (mgr s) with
  | Some n =>
      forallb (λ f, match f with
                    | Handle_run =>
                        match run_task_ref s with
                        | Some task => done_is_set (mgr s) task
                        | None => false
                        end
                    | Managed sp => done_is_set (mgr s) (spawn_task sp)
                    end) (started_soon n)
  | None => false
  end.

(** One step of the system; [None] when the scheduler cannot take it. *)
Definition step (l : label) (s : System) : option System :=
  let m := mgr s in
  match l with
  | Run_acquire =>
      Some {| mgr := (run_acquire m).2; handler := handler s;
              run_task_ref := run_task_ref s |}
  | Run_start =>
      if _run_lock m && negb (is_started m) && negb (is_finished m) then
        Some {| mgr := (run_start m).2; handler := handler s;
                run_task_ref := run_task_ref s |}
      else None
  | Run_leave exit =>
      if _run_lock m && is_started m && negb (is_finished m) && task_nursery_drained s then
        Some {| mgr := (run_leave exit m).2; handler := Returned;
                run_task_ref := run_task_ref s |}
      else None
  | Handle_run_enter current_task =>
      match run_task_ref s with
      | None =>
          if task_nursery_has m Handle_run && trio_task_unused m current_task then
            match handle_run_enter current_task m with
            | (Normal task, m') =>
                Some {| mgr := m'; handler := handler s; run_task_ref := Some task |}
            | (Raised _, _) => None
            end
          else None
      | Some _ => None
      end
  | Handle_run_exit body =>
      match run_task_ref s with
      | Some task =>
          if negb (done_is_set m task) then
            Some {| mgr := (handle_run_body (λ m, (body, m)) task m).2;
                    handler := handler s; run_task_ref := run_task_ref s |}
          else None
      | None => None
      end
  | Task_enter sp current_task =>
      if task_nursery_has m (Managed sp)
         && negb (has_trio_task (objs m (spawn_task sp)))
         && trio_task_unused m current_task then
        Some {| mgr := (set_trio_task (spawn_task sp) current_task m).2;
                handler := handler s; run_task_ref := run_task_ref s |}
      else None
  | Task_exit sp body =>
      if task_nursery_has m (Managed sp)
         && has_trio_task (objs m (spawn_task sp))
         && negb (done_is_set m (spawn_task sp)) then
        Some {| mgr := (managed_body (λ m, (body, m)) (spawn_daemon sp) (spawn_name sp)
                          (spawn_task sp) m).2;
                handler := handler s; run_task_ref := run_task_ref s |}
      else None
  | Call_run_task current_task async_fn daemon name =>
      Some {| mgr := (run_task current_task async_fn daemon name m).2;
              handler := handler s; run_task_ref := run_task_ref s |}
  | Call_cancel =>
      Some {| mgr := (cancel m).2; handler := handler s; run_task_ref := run_task_ref s |}
  | Handler_step =>
      match _system_nursery m with
      | Some n =>
          if nursery_cancelled n then None
          else
            match _handle_cancelled (handler s) m with
            | Some (h, m') =>
                Some {| mgr := m'; handler := h; run_task_ref := run_task_ref s |}
            | None => None
            end
      | None => None
      end
  end.

(** A schedule, run from a state. *)
Fixpoint exec (ls : list label) (s : System) : option System :=
  match ls with
  | [] => Some s
  | l :: ls' =>
      match step l s with
      | Some s' => exec ls' s'
      | None => None
      end
  end.

(** A manager that was just built, with the handler it will start. *)
Definition initial (self_ref : manager_ref) (cls : nat) (service : service_ref) : System :=
  {| mgr := TrioManager__init__ self_ref cls service; handler := WaitCancelled;
     run_task_ref := None |}.

(** The states a manager can be in. *)
Inductive reachable : System → Prop :=
| reachable_initial self_ref cls service :
    reachable (initial self_ref cls service)
| reachable_step l s s' :
    reachable s → step l s = Some s' → reachable s'.

End Manager.

(** ** The external API guard *)

(** A value that an API method returns. *)
Abbreviation value := nat.

(** [_ChannelPayload = Tuple[Optional[Any], Optional[BaseException]]]. *)
Definition _ChannelPayload : Type := option value * option exn.

(** A service: its attribute [manager], once a manager was attached. *)
Record ServiceAPI := mk_ServiceAPI {
  manager : option TrioManager
}.

(** The [ServiceCancelled] that reports the state of the manager. *)
Definition not_running (func : nat) (m : TrioManager) : exn :=
  ServiceCancelled
    (NotRunning func (is_started m) (is_running m) (is_stopping m) (is_finished m)).

(** [_wait_stopping_or_finished]: what the watcher sends.  [m] is the manager
    when the watcher starts and [m_stopping] the manager when
    [await manager.wait_stopping()] returns. *)
Definition _wait_stopping_or_finished (func : nat) (m m_stopping : TrioManager)
    : _ChannelPayload :=
  if is_stopping m || is_finished m then (None, Some (not_running func m))
  else (None, Some (not_running func m_stopping)).

(** [_wait_api_fn]: what the worker sends when the wrapped call ended with
    [body]; an exception that is not an [Exception] leaves the worker. *)
Definition _wait_api_fn (body : completion value) : completion _ChannelPayload :=
  match body with
  | Normal result => Normal (Some result, None)
  | Raised exc_value =>
      if is_Exception exc_value then
        Normal (None, Some (with_traceback exc_value (tb_of exc_value)))
      else Raised exc_value
  end.

(** Which of the two tasks of the private nursery reaches [channel.send]
    first: the worker, whose wrapped call ended with [body], or the watcher. *)
Inductive race :=
| Worker_first (body : completion value)
| Watcher_first (m m_stopping : TrioManager).

(** What a call of a wrapped method did: the calls of the wrapped function,
    the payloads taken from the channel, and how the call ended. *)
Record api_call := mk_api_call {
  invoked : list nat;
  received : list _ChannelPayload;
  outcome : completion (option value)
}.

(** [inner], the wrapper that [external_api(func)] returns, called on the
    service [self]. *)
Definition external_api (func : nat) (self : ServiceAPI) (r : race) : api_call :=
  match manager self with
  | None =>
      {| invoked := []; received := [];
         outcome := Raised (ServiceCancelled (HasNotBeenRun func)) |}
  | Some m =>
      if negb (is_running m) then
        {| invoked := []; received := []; outcome := Raised (not_running func m) |}
      else
        match r with
        | Worker_first body =>
            match _wait_api_fn body with
            | Normal (result, err) =>
                {| invoked := [func]; received := [(result, err)];
                   outcome := match err with
                              | None => Normal result
                              | Some e => Raised e
                              end |}
            | Raised e => {| invoked := [func]; received := []; outcome := Raised e |}
            end
        | Watcher_first m' m_stopping =>
            let '(result, err) := _wait_stopping_or_finished func m' m_stopping in
            {| invoked := [func]; received := [(result, err)];
               outcome := match err with
                          | None => Normal result
                          | Some e => Raised e
                          end |}
        end
  end.


(** * Vocabulary of the properties *)

(** The manager after [n] calls of [cancel]. *)
Fixpoint cancel_n (n : nat) (m : TrioManager) : TrioManager :=
  match n with
  | O => m
  | S n' => cancel_n n' (cancel m).2
  end.


(** The number of tasks among [keys] whose [done] event is set. *)
Fixpoint count_done (m : TrioManager) (keys : list task_ref) : nat :=
  match keys with
  | [] => 0
  | task :: keys' => (if done_is_set m task then 1 else 0) + count_done m keys'
  end.

(** The outcome of the managed wrapper of [task] when the wrapped function
    completed with [body], leaving the manager [m]. *)
Definition managed_outcome (body : completion unit) (daemon : bool) (name : string)
    (task : task_ref) (m : TrioManager) : completion unit * TrioManager :=
  match body with
  | Normal _ =>
      if daemon then
        (match (cancel m).1 with
         | Normal _ => Raised (DaemonTaskExit ("Daemon task " +:+ name +:+ " exited"))
         | Raised e => Raised e
         end,
         (done_set task (cancel m).2).2)
      else (Normal tt, (done_set task m).2)
  | Raised err =>
      if is_Exception err then
        ((cancel (errors_append err m).2).1,
         (done_set task (cancel (errors_append err m).2).2).2)
      else (leave_scope (TaskScope task) body, (done_set task m).2)
  end.


(** The error buffer once the task nursery block of [run] was left with
    [exit]: an [Exception] that left the block is appended. *)
Definition errors_after (exit : completion unit) (errors : list EXC_INFO) : list EXC_INFO :=
  match exit with
  | Raised e => if is_Exception e then errors ++ [sys_exc_info e] else errors
  | Normal _ => errors
  end.

(** The events of [m'] that are set include those of [m]. *)
Definition events_le (m m' : TrioManager) : Prop :=
  (_started m = true → _started m' = true) ∧
  (_cancelled m = true → _cancelled m' = true) ∧
  (_stopping m = true → _stopping m' = true) ∧
  (_finished m = true → _finished m' = true).




(** A manager that was just built. *)
Definition new_manager : TrioManager := TrioManager__init__ 0 0 0.

(** A manager whose [run] is suspended in its task nursery block. *)
Definition started_manager : TrioManager := (run_start (run_acquire new_manager).2).2.

(** A wrapped function that fails. *)
Definition failing_fn : M unit := raise (UserError 1).

(** A [get_task_name] for the examples: the name given, or a fixed one. *)
Definition example_task_name (f : nameable) (name : option string) : string :=
  default "fn" name.


(** [m'] differs from [m] by what a segment does that neither takes part in
    [run] nor creates a task: events may have been set, tasks may be done,
    cancelled or bound to their Trio task. *)
Definition quiet (m m' : TrioManager) : Prop :=
  events_le m m' ∧
  _run_lock m' = _run_lock m ∧
  _service_task_dag m' = _service_task_dag m ∧
  next_ref m' = next_ref m ∧
  (∀ t, parent (objs m' t) = parent (objs m t)) ∧
  (∀ t, done (objs m t) = true → done (objs m' t) = true).

(** [m'] is [m] with one more task, [task], whose parent is [par]: the task
    object is new, the DAG has it as a key with no children, and in the child
    list of its parent. *)
Definition creates (m m' : TrioManager) (task : task_ref) (par : option task_ref) : Prop :=
  task = next_ref m ∧
  next_ref m' = S (next_ref m) ∧
  events_le m m' ∧
  _cancelled m' = _cancelled m ∧
  _run_lock m' = _run_lock m ∧
  (∀ t, t ≠ task → objs m' t = objs m t) ∧
  parent (objs m' task) = par ∧
  done (objs m' task) = false ∧
  _service_task_dag m' =
    dict_setitem task []
      (match par with
       | Some p => default (_service_task_dag m) (dict_append p task (_service_task_dag m))
       | None => _service_task_dag m
       end).

(** The kinds of steps of the system, by what they change. *)
Inductive step_kind (l : label) (s s' : System) : Prop :=
| step_quiet :
    quiet (mgr s) (mgr s') → run_task_ref s' = run_task_ref s →
    handler s' = handler s → step_kind l s s'
| step_handler :
    quiet (mgr s) (mgr s') → run_task_ref s' = run_task_ref s →
    _handle_cancelled (handler s) (mgr s) = Some (handler s', mgr s') →
    step_kind l s s'
| step_acquire :
    _run_lock (mgr s) = false → is_started (mgr s) = false →
    mgr s' = with_run_lock true (mgr s) → run_task_ref s' = run_task_ref s →
    handler s' = handler s → step_kind l s s'
| step_leave exit :
    l = Run_leave exit →
    is_started (mgr s) = true →
    mgr s' = (run_leave exit (mgr s)).2 → run_task_ref s' = run_task_ref s →
    handler s' = Returned → step_kind l s s'
| step_create_run task current_task :
    l = Handle_run_enter current_task →
    creates (mgr s) (mgr s') task None →
    run_task_ref s = None → run_task_ref s' = Some task →
    handler s' = handler s → step_kind l s s'
| step_create task current_task async_fn daemon name :
    l = Call_run_task current_task async_fn daemon name →
    is_running (mgr s) = true → is_cancelled (mgr s) = false →
    creates (mgr s) (mgr s') task (_get_parent_task (mgr s) current_task) →
    run_task_ref s' = run_task_ref s →
    handler s' = handler s → step_kind l s s'.

(** Every child of a key of the DAG is a later key. *)
Definition dag_ordered (d : Dag) : Prop :=
  ∀ i t c, dict_keys d !! i = Some t → c ∈ dag_children d t →
           ∃ j, (i < j)%nat ∧ dict_keys d !! j = Some c.

(** An order of visit in which every node comes after all its children. *)
Inductive closed_order (d : Dag) : list task_ref → Prop :=
| closed_nil : closed_order d []
| closed_snoc l p :
    closed_order d l → (∀ c, c ∈ dag_children d p → c ∈ l) →
    closed_order d (l ++ [p]).

(** The DAG of a manager is well formed: its keys are distinct task objects
    that exist; the children of a node are later keys; a node is in the child
    list of its parent, and the nodes of a child list have that parent; the
    task of the service body, once created, is a parentless key. *)
Record dag_wf (s : System) : Prop := mk_dag_wf {
  wf_fresh : ∀ k, k ∈ dict_keys (_service_task_dag (mgr s)) → (k < next_ref (mgr s))%nat;
  wf_nodup : NoDup (dict_keys (_service_task_dag (mgr s)));
  wf_ordered : dag_ordered (_service_task_dag (mgr s));
  wf_parent : ∀ k p, k ∈ dict_keys (_service_task_dag (mgr s)) →
                parent (objs (mgr s) k) = Some p →
                k ∈ dag_children (_service_task_dag (mgr s)) p;
  wf_child : ∀ p c, c ∈ dag_children (_service_task_dag (mgr s)) p →
               parent (objs (mgr s) c) = Some p;
  wf_run : ∀ t, run_task_ref s = Some t →
             t ∈ dict_keys (_service_task_dag (mgr s)) ∧ parent (objs (mgr s) t) = None
}.

(** The handler in its loop over [snapshot], with [visited] behind it and
    [rest] ahead: it follows the order of [iter_dag]; the tasks it has dealt
    with are done; [cancelled] is set, and the DAG has kept the entries of
    the snapshot as they were. *)
Definition iterating (s : System) (snapshot : Dag) (visited rest : list task_ref) : Prop :=
  visited ++ rest = iter_dag snapshot ∧
  (dag_ordered snapshot ∧ NoDup (dict_keys snapshot)) ∧
  (∀ t, t ∈ visited ++ rest → (t < next_ref (mgr s))%nat) ∧
  (∀ t, t ∈ visited → done_is_set (mgr s) t = true) ∧
  is_cancelled (mgr s) = true ∧
  ∃ later, _service_task_dag (mgr s) = snapshot ++ later.

Definition handler_inv (s : System) : Prop :=
  match handler s with
  | Iterating snapshot visited rest => iterating s snapshot visited rest
  | WaitDone snapshot visited task rest => iterating s snapshot visited (task :: rest)
  | WaitCancelled | Returned => True
  end.

(** The nodes of the DAG that have no parent. *)
Definition parentless (s : System) : list task_ref :=
  filter (λ k, parent (objs (mgr s) k) = None) (dict_keys (_service_task_dag (mgr s))).

(** A spawned task, for the examples. *)
Definition example_spawn (task : task_ref) (fn : nat) : spawn :=
  {| spawn_task := task; spawn_fn := AsyncFn fn; spawn_daemon := false;
     spawn_name := "fn" |}.

(** The service body, Trio task 100, spawns a task; then a Trio task that the
    manager does not know, 999, spawns another. *)
Definition schedule_two_roots : list label :=
  [Run_acquire; Run_start; Handle_run_enter 100;
   Call_run_task 100 (AsyncFn 1) false None;
   Call_run_task 999 (AsyncFn 2) false None].

(** The service body spawns a task and returns while that task still runs;
    then the service is cancelled and the handler takes its snapshot. *)
Definition schedule_body_returns_first : list label :=
  [Run_acquire; Run_start; Handle_run_enter 100;
   Call_run_task 100 (AsyncFn 1) false None;
   Task_enter (example_spawn 1 1) 101;
   Handle_run_exit (Normal tt);
   Call_cancel;
   Handler_step].

(** The service body spawns A, A spawns B, B spawns C; then the service is
    cancelled and the handler takes its snapshot and cancels C. *)
Definition schedule_nested : list label :=
  [Run_acquire; Run_start; Handle_run_enter 100;
   Call_run_task 100 (AsyncFn 1) false None;
   Task_enter (example_spawn 1 1) 101;
   Call_run_task 101 (AsyncFn 2) false None;
   Task_enter (example_spawn 2 2) 102;
   Call_run_task 102 (AsyncFn 3) false None;
   Task_enter (example_spawn 3 3) 103;
   Call_cancel;
   Handler_step; Handler_step;
   Task_exit (example_spawn 3 3) (Raised (Cancelled (TaskScope 3)));
   Handler_step].

(** A running manager on which [cancel()] was called. *)
Definition cancelled_manager : TrioManager := (cancel started_manager).2.

(** [P] holds of the state that the schedule [ls] leads to, from a manager
    that was just built; the schedule is one the scheduler can take. *)
Definition after (ls : list label) (P : System → Prop) : Prop :=
  match exec example_task_name ls (initial 0 0 0) with
  | Some s => P s
  | None => False
  end.

(** The scheduler can take the schedule [ls]. *)
Definition runs (ls : list label) : bool :=
  match exec example_task_name ls (initial 0 0 0) with
  | Some _ => true
  | None => false
  end.

(** * More of the module *)

(** The getter of [_Task.trio_task]. *)
Definition get_trio_task (task : task_ref) : M trio_task_id := λ m,
  match _trio_task (objs m task) with
  | None => raise (LifecycleError "Trio task not set yet") m
  | Some t => (Normal t, m)
  end.


(** [n] segments of [_handle_cancelled], one after the other, as long as the
    handler is not suspended. *)
Fixpoint handle_cancelled_steps (n : nat) (h : handler_state) (m : TrioManager)
    : handler_state * TrioManager :=
  match n with
  | O => (h, m)
  | S n' =>
      match _handle_cancelled h m with
      | Some (h', m') => handle_cancelled_steps n' h' m'
      | None => (h, m)
      end
  end.

(** The fields of a task that are given at its creation. *)
Definition same_identity (t t' : _Task) : Prop :=
  name t' = name t ∧ daemon t' = daemon t ∧ parent t' = parent t.

(** What was set on task [t] is set on [t']: the [done] event, the request to
    cancel its scope, its Trio task. *)
Definition task_le (t t' : _Task) : Prop :=
  same_identity t t' ∧
  (done t = true → done t' = true) ∧
  (cancel_scope t = true → cancel_scope t' = true) ∧
  (∀ v, _trio_task t = Some v → _trio_task t' = Some v).



(** The manager once the service body, run by the Trio task 100, has entered
    the DAG and spawned a task. *)
Definition manager_with_child : TrioManager :=
  (run_task example_task_name 100 (AsyncFn 1) false None
     (handle_run_enter 100 started_manager).2).2.

(** The system of that manager, its cancellation handler still waiting. *)
Definition system_with_child : System :=
  {| mgr := manager_with_child; handler := WaitCancelled; run_task_ref := Some 0%nat |}.

(** A manager whose DAG has the given nodes, each done or not. *)
Definition manager_with_nodes (nodes : list (task_ref * bool)) : TrioManager :=
  with_dag (map (λ n, (n.1, [])) nodes)
    (with_objs (λ t, if bool_decide ((t, true) ∈ nodes)
                     then with_done (_Task__init__ "" false None None)
                     else _Task__init__ "" false None None)
       new_manager).

(** From [m] to [m'] nothing is taken back: the tasks that exist keep their
    identity and what was set on them, the error buffer is extended at its
    end, the task nursery stays in place, and [started] is set only with the
    task nursery in place. *)
Definition grows (m m' : TrioManager) : Prop :=
  (next_ref m ≤ next_ref m')%nat ∧
  (∀ t, (t < next_ref m)%nat → task_le (objs m t) (objs m' t)) ∧
  _errors m `prefix_of` _errors m' ∧
  (is_Some (_task_nursery m) → is_Some (_task_nursery m')) ∧
  (_started m' = true → _started m = true ∨ is_Some (_task_nursery m')).

(** The DAG of [m'] extends that of [m]: the same keys in the same order,
    then new ones; every child list extended at its end. *)
Definition dag_le (m m' : TrioManager) : Prop :=
  dict_keys (_service_task_dag m) `prefix_of` dict_keys (_service_task_dag m') ∧
  ∀ k, dag_children (_service_task_dag m) k
         `prefix_of` dag_children (_service_task_dag m') k.

(** No child list of the DAG names a node twice. *)
Definition children_nodup (m : TrioManager) : Prop :=
  ∀ p, NoDup (dag_children (_service_task_dag m) p).

(** The service body spawns a task, which fails; then the body returns. *)
Definition schedule_task_fails : list label :=
  [Run_acquire; Run_start; Handle_run_enter 100;
   Call_run_task 100 (AsyncFn 1) false None;
   Task_enter (example_spawn 1 1) 101;
   Task_exit (example_spawn 1 1) (Raised (UserError 1));
   Handle_run_exit (Normal tt)].

(** From [m] to [m'] the events [stopping] and [finished] are as they were. *)
Definition same_ending (m m' : TrioManager) : Prop :=
  _stopping m' = _stopping m ∧ _finished m' = _finished m.

(** From [m] to [m'] no cancel scope of a task that exists was cancelled. *)
Definition same_scopes (m m' : TrioManager) : Prop :=
  (next_ref m ≤ next_ref m')%nat ∧
  ∀ t, (t < next_ref m)%nat → cancel_scope (objs m' t) = cancel_scope (objs m t).

(** The label is a segment of the cancellation handler. *)
Definition is_Handler_step (l : label) : bool :=
  match l with Handler_step => true | _ => false end.

(** The label is the end of [run]. *)
Definition is_Run_leave (l : label) : bool :=
  match l with Run_leave _ => true | _ => false end.
(** * Properties *)

(** ** [cancel] *)

Lemma cancel_idempotent (m : TrioManager) : (cancel (cancel m).2).2 = (cancel m).2.
Proof.
  unfold cancel, is_running, is_started.
  destruct m as [? ? ? ? [] ? [] [] ? ? ? ? ? ?]; reflexivity.
Qed.

Lemma cancel_n_succ (n : nat) (m : TrioManager) : cancel_n (S n) m = (cancel m).2.
Proof.
  revert m. induction n as [|n IH]; intros m; [reflexivity|].
  change (cancel_n (S (S n)) m) with (cancel_n (S n) (cancel m).2).
  rewrite IH. apply cancel_idempotent.
Qed.

(** C5. [cancel()] raises [LifecycleError] exactly when the manager was never
    started, and then changes nothing; on a manager that is started but not
    running it returns and changes nothing; on a running manager it returns
    with [cancelled] set and nothing else changed.  It is a plain function:
    every call completes at once.  Any number [n + 1] of successive calls
    leaves the manager as one call does. *)
Theorem cancel_semantics (m : TrioManager) :
  ((∃ e, (cancel m).1 = Raised e) ↔ is_started m = false) ∧
  (is_started m = false →
     ∃ msg, cancel m = (Raised (LifecycleError msg), m)) ∧
  (is_started m = true → is_running m = false → cancel m = (Normal tt, m)) ∧
  (is_running m = true →
     cancel m = (Normal tt, with_cancelled m) ∧ is_cancelled (cancel m).2 = true) ∧
  (∀ n, cancel_n (S n) m = cancel_n 1 m).
Proof.
  repeat split.
  - intros [e He]. unfold cancel in He.
    destruct (is_started m); [|done].
    simpl in He. destruct (is_running m); discriminate.
  - intros H. unfold cancel. rewrite H. simpl. eauto.
  - intros H. unfold cancel. rewrite H. simpl. eauto.
  - intros Hs Hr. unfold cancel. rewrite Hs, Hr. reflexivity.
  - unfold cancel. rewrite H.
    assert (is_started m = true) as ->; [|reflexivity].
    unfold is_running, is_started in *. destruct (_started m); done.
  - unfold cancel. rewrite H.
    assert (is_started m = true) as ->; [|reflexivity].
    unfold is_running, is_started in *. destruct (_started m); done.
  - intros n. rewrite !cancel_n_succ. reflexivity.
Qed.

(** Unfolding of the monad and of the control operators. *)
Ltac unfold_M :=
  unfold mbind, M_bind, mret, M_ret, pass, raise, gets, modify, try_finally,
    try_except_else, with_scope in *.

(** ** [stats] *)

Lemma count_done_filter (m : TrioManager) (keys : list task_ref) :
  length (filter (λ task, done_is_set m task = true) keys) = count_done m keys.
Proof.
  induction keys as [|k keys IH]; [reflexivity|].
  rewrite filter_cons. simpl. destruct (done_is_set m k) eqn:Hk.
  - rewrite decide_True by done. simpl. by rewrite IH.
  - rewrite decide_False by done. by rewrite IH.
Qed.

(** C8. In every state of the manager, [stats] reports
    [total_count = max(0, |dag| - 1)] and
    [finished_count = min(total_count, n)], where [n] is the number of nodes
    of the DAG whose [done] event is set; so [finished_count <= total_count]. *)
Theorem stats_counts (m : TrioManager) :
  let dag := _service_task_dag m in
  total_count (tasks (stats m)) = Z.max 0 (Z.of_nat (length dag) - 1) ∧
  finished_count (tasks (stats m)) =
    Z.min (total_count (tasks (stats m))) (Z.of_nat (count_done m (dict_keys dag))) ∧
  finished_count (tasks (stats m)) ≤ total_count (tasks (stats m)).
Proof.
  simpl. unfold len. rewrite count_done_filter. repeat split. lia.
Qed.

(** ** [run] *)









(** ** One-shot events *)

Lemma raise_errors_state (m : TrioManager) : (raise_errors m).2 = m.
Proof. unfold raise_errors. unfold_M. by destruct (did_error m). Qed.

Lemma run_leave_state (exit : completion unit) (m : TrioManager) :
  (run_leave exit m).2 =
    with_finished (with_stopping (with_run_lock false
      (with_system_nursery (nursery_cancel <$> _system_nursery m)
         (with_errors (errors_after exit (_errors m)) m)))).
Proof.
  unfold run_leave, system_nursery_cancel, errors_append. unfold_M.
  destruct exit as [[]|e]; [|destruct e as [| | | | | |o|]; [..|destruct o|]];
    simpl; rewrite ?raise_errors_state; by destruct m.
Qed.

Lemma run_leave_events (exit : completion unit) (m : TrioManager) :
  events_le m (run_leave exit m).2.
Proof. rewrite run_leave_state. unfold events_le. simpl. intuition auto. Qed.

(** ** The managed task wrapper *)

Lemma done_set_done (task : task_ref) (m : TrioManager) :
  done_is_set (done_set task m).2 task = true.
Proof.
  unfold done_set, done_is_set. unfold_M. simpl. by rewrite fn_lookup_insert.
Qed.

Lemma cancel_running (m : TrioManager) :
  is_running m = true → is_cancelled (cancel m).2 = true.
Proof.
  intros H. unfold cancel. rewrite H.
  assert (is_started m = true) as ->; [|reflexivity].
  unfold is_running, is_started in *. by destruct (_started m).
Qed.

Lemma cancel_started (m : TrioManager) :
  is_started m = true → (cancel m).1 = Normal tt.
Proof.
  intros H. unfold cancel. rewrite H. simpl. by destruct (is_running m).
Qed.

Lemma cancel_not_Cancelled (m : TrioManager) (s : scope) :
  leave_scope s (cancel m).1 = (cancel m).1.
Proof. unfold cancel. unfold_M. by repeat case_match. Qed.

Lemma managed_body_outcome (async_fn : M unit) (daemon : bool) (name : string)
    (task : task_ref) (m : TrioManager) :
  managed_body async_fn daemon name task m =
    managed_outcome (async_fn m).1 daemon name task (async_fn m).2.
Proof.
  unfold managed_body, managed_outcome, try_finally, with_scope, try_except_else.
  destruct (async_fn m) as [[[]|e] m1]; simpl.
  - destruct daemon; [|reflexivity].
    unfold mbind, M_bind, raise.
    pose proof (cancel_not_Cancelled m1 (TaskScope task)) as Hc.
    destruct (cancel m1) as [[[]|e] m2]; simpl in *; [reflexivity|].
    by rewrite Hc.
  - destruct (is_Exception e) eqn:He.
    + unfold errors_append, mbind, M_bind, modify. simpl.
      set (m2 := with_errors _ m1).
      pose proof (cancel_not_Cancelled m2 (TaskScope task)) as Hc.
      destruct (cancel m2) as [[[]|e'] m3]; simpl in *; [reflexivity|].
      by rewrite Hc.
    + reflexivity.
Qed.

(** C3. For a managed task, whose Trio task is not yet recorded when the
    wrapper starts: on every exit of the wrapped function (clean return,
    error, cancellation) the [done] event of the task is set.  If the
    function raises an exception, the wrapper appends it to the error buffer
    and calls [cancel()].  If the task is a daemon and the function returns
    cleanly, the wrapper calls [cancel()] and raises [DaemonTaskExit] into the
    task nursery. *)
Theorem managed_task_wrapper (current_task : trio_task_id) (async_fn : M unit)
    (daemon : bool) (name : string) (task : task_ref) (m : TrioManager) :
  has_trio_task (objs m task) = false →
  let '(body, m1) := async_fn (set_trio_task task current_task m).2 in
  let '(r, m') := _run_and_manage_task current_task async_fn daemon name task m in
  done_is_set m' task = true ∧
  (∀ err, body = Raised err → is_Exception err = true →
     m' = (done_set task (cancel (errors_append err m1).2).2).2 ∧
     _errors m' = (_errors m1 ++ [sys_exc_info err])%list ∧
     (is_running m1 = true → is_cancelled m' = true) ∧
     (is_started m1 = true → r = Normal tt)) ∧
  (body = Normal tt → daemon = true →
     m' = (done_set task (cancel m1).2).2 ∧
     _errors m' = _errors m1 ∧
     (is_running m1 = true → is_cancelled m' = true) ∧
     (is_started m1 = true →
        r = Raised (DaemonTaskExit ("Daemon task " +:+ name +:+ " exited")))).
Proof.
  intros Hfresh. unfold _run_and_manage_task, set_trio_task, has_trio_task in *.
  destruct (_trio_task (objs m task)) eqn:Ht; [done|].
  unfold mbind, M_bind, modify. cbv beta iota zeta. rewrite Ht.
  rewrite managed_body_outcome.
  cbn [fst snd]. destruct (async_fn _) as [body m1]. cbn [fst snd].
  unfold managed_outcome.
  destruct body as [[]|e].
  - destruct daemon; (split; [apply done_set_done|]); split; try done.
    intros _ _. repeat split.
    + unfold cancel. unfold_M. by repeat case_match.
    + intros H. apply cancel_running in H. done.
    + intros H. by rewrite (cancel_started _ H).
  - destruct (is_Exception e) eqn:He; (split; [apply done_set_done|]); split; try done.
    + intros err [= <-] _. repeat split.
      * unfold cancel, errors_append. unfold_M. by repeat case_match.
      * intros H. by apply (cancel_running (errors_append e m1).2).
      * intros H. by apply (cancel_started (errors_append e m1).2).
    + intros err [= <-]. congruence.
Qed.

Lemma managed_task_wrapper_witness :
  let '(body, m1) := failing_fn (set_trio_task 0 7 started_manager).2 in
  let '(r, m') := _run_and_manage_task 7 failing_fn true "fn" 0 started_manager in
  done_is_set m' 0 = true ∧
  (∀ err, body = Raised err → is_Exception err = true →
     m' = (done_set 0 (cancel (errors_append err m1).2).2).2 ∧
     _errors m' = (_errors m1 ++ [sys_exc_info err])%list ∧
     (is_running m1 = true → is_cancelled m' = true) ∧
     (is_started m1 = true → r = Normal tt)) ∧
  (body = Normal tt → true = true →
     m' = (done_set 0 (cancel m1).2).2 ∧
     _errors m' = _errors m1 ∧
     (is_running m1 = true → is_cancelled m' = true) ∧
     (is_started m1 = true →
        r = Raised (DaemonTaskExit ("Daemon task " +:+ "fn" +:+ " exited")))).
Proof. exact (managed_task_wrapper 7 failing_fn true "fn" 0 started_manager eq_refl). Defined.

(** ** The DAG as a dictionary *)

Lemma dict_get_setitem_eq (k : task_ref) (v : list task_ref) (d : Dag) :
  dict_get k (dict_setitem k v d) = Some v.
Proof.
  induction d as [|[k' v'] d IH]; simpl.
  - by rewrite decide_True.
  - destruct (decide (k = k')) as [->|Hne]; simpl.
    + by rewrite decide_True.
    + by rewrite decide_False.
Qed.

Lemma dict_get_setitem_ne (k k' : task_ref) (v : list task_ref) (d : Dag) :
  k ≠ k' → dict_get k' (dict_setitem k v d) = dict_get k' d.
Proof.
  intros Hne. induction d as [|[k0 v0] d IH]; simpl.
  - by rewrite decide_False.
  - destruct (decide (k = k0)) as [->|Hne0]; simpl.
    + by rewrite !decide_False.
    + destruct (decide (k' = k0)); [done|apply IH].
Qed.

Lemma dict_get_is_Some (k : task_ref) (d : Dag) :
  is_Some (dict_get k d) ↔ k ∈ dict_keys d.
Proof.
  unfold dict_keys. induction d as [|[k0 v0] d IH]; simpl.
  - split; [by intros [? ?]|by intros ?%elem_of_nil].
  - rewrite elem_of_cons. destruct (decide (k = k0)) as [->|Hne].
    + split; eauto.
    + rewrite IH. split; [by right|]. by intros [?|?].
Qed.

Lemma dict_keys_setitem_old (k : task_ref) (v : list task_ref) (d : Dag) :
  k ∈ dict_keys d → dict_keys (dict_setitem k v d) = dict_keys d.
Proof.
  unfold dict_keys. induction d as [|[k0 v0] d IH]; simpl.
  - by intros ?%elem_of_nil.
  - intros [->|Hin]%elem_of_cons.
    + by rewrite decide_True.
    + destruct (decide (k = k0)); simpl; [done|]. f_equal. by apply IH.
Qed.

Lemma dict_keys_setitem_new (k : task_ref) (v : list task_ref) (d : Dag) :
  k ∉ dict_keys d → dict_keys (dict_setitem k v d) = dict_keys d ++ [k].
Proof.
  unfold dict_keys. induction d as [|[k0 v0] d IH]; simpl; [done|].
  intros [Hne Hnin]%not_elem_of_cons.
  rewrite decide_False by done. simpl. f_equal. by apply IH.
Qed.

Lemma dict_setitem_new (k : task_ref) (v : list task_ref) (d : Dag) :
  k ∉ dict_keys d → dict_setitem k v d = d ++ [(k, v)].
Proof.
  unfold dict_keys. induction d as [|[k0 v0] d IH]; simpl; [done|].
  intros [Hne Hnin]%not_elem_of_cons.
  rewrite decide_False by done. f_equal. by apply IH.
Qed.

(** ** Parent inference *)

Lemma get_parent_task_loop_Some (objs : task_ref → _Task) (keys : list task_ref)
    (t : trio_task_id) (p : task_ref) :
  _get_parent_task_loop objs keys t = Some p →
  ∃ before after,
    keys = before ++ p :: after ∧
    _trio_task (objs p) = Some t ∧
    ∀ k, k ∈ before → _trio_task (objs k) ≠ Some t.
Proof.
  induction keys as [|k keys IH]; simpl; [done|].
  unfold has_trio_task.
  destruct (_trio_task (objs k)) as [t'|] eqn:Hk; simpl.
  - destruct (decide (Some t = Some t')) as [[= <-]|Hne].
    + intros [= <-]. exists [], keys. repeat split; [done|].
      by intros k' ?%elem_of_nil.
    + intros (before & after & -> & Hp & Hb)%IH.
      exists (k :: before), after. repeat split; [done|].
      intros k' [->|?]%elem_of_cons; [congruence|by apply Hb].
  - intros (before & after & -> & Hp & Hb)%IH.
    exists (k :: before), after. repeat split; [done|].
    intros k' [->|?]%elem_of_cons; [congruence|by apply Hb].
Qed.

Lemma get_parent_task_loop_None (objs : task_ref → _Task) (keys : list task_ref)
    (t : trio_task_id) :
  _get_parent_task_loop objs keys t = None ↔
  ∀ k, k ∈ keys → _trio_task (objs k) ≠ Some t.
Proof.
  induction keys as [|k keys IH]; simpl.
  - split; [by intros _ k ?%elem_of_nil|done].
  - unfold has_trio_task.
    destruct (_trio_task (objs k)) as [t'|] eqn:Hk; simpl.
    + destruct (decide (Some t = Some t')) as [[= <-]|Hne].
      * split; [done|]. intros H. destruct (H k); [left|done].
      * rewrite IH. split.
        -- intros H k' [->|?]%elem_of_cons; [congruence|by apply H].
        -- intros H k' ?. apply H. by right.
    + rewrite IH. split.
      * intros H k' [->|?]%elem_of_cons; [congruence|by apply H].
      * intros H k' ?. apply H. by right.
Qed.

Lemma get_parent_task_key (m : TrioManager) (t : trio_task_id) (p : task_ref) :
  _get_parent_task m t = Some p →
  p ∈ dict_keys (_service_task_dag m) ∧ _trio_task (objs m p) = Some t.
Proof.
  intros (before & after & Hk & Hp & _)%get_parent_task_loop_Some.
  split; [|done]. rewrite Hk. apply elem_of_app. right. left.
Qed.

Section Properties.

Variable get_task_name : nameable → option string → string.

(** ** [run_task] *)

Lemma run_task_cancelled (current_task : trio_task_id) (async_fn : callable)
    (daemon : bool) (name : option string) (m : TrioManager) :
  is_running m = true → is_cancelled m = true →
  run_task get_task_name current_task async_fn daemon name m = (Normal tt, m).
Proof. intros H1 H2. unfold run_task. by rewrite H1, H2. Qed.


(** ** [run_child_service] *)

(** C10. On a running manager whose [cancelled] is set,
    [run_child_service(service)] returns a new manager of the class of the
    parent, built over [service], and leaves the parent as it was: the call
    of [run_task] did nothing, so the [run] of the child is not in the task
    nursery.  The child is in its initial state, [started] unset, and only
    its [run] can change that: [cancel], [run_task] and [run_child_service]
    on the child raise [LifecycleError] and leave it as it is. *)
Theorem run_child_service_cancelled (current_task : trio_task_id) (child_ref : manager_ref)
    (service : service_ref) (daemon : bool) (name : option string) (m : TrioManager) :
  is_running m = true → is_cancelled m = true →
  let child := TrioManager__init__ child_ref (cls m) service in
  run_child_service get_task_name current_task child_ref service daemon name m
    = (Normal child, m) ∧
  cls child = cls m ∧ _service child = service ∧
  is_started child = false ∧
  (∃ msg, cancel child = (Raised (LifecycleError msg), child)) ∧
  (∀ t f d nm, ∃ msg,
     run_task get_task_name t f d nm child = (Raised (LifecycleError msg), child)) ∧
  (∀ t c s d nm, ∃ msg,
     (run_child_service get_task_name t c s d nm child).1 = Raised (LifecycleError msg) ∧
     (run_child_service get_task_name t c s d nm child).2 = child).
Proof.
  intros H1 H2 child. repeat split.
  - unfold run_child_service. unfold_M.
    by rewrite run_task_cancelled.
  - eauto.
  - intros. eauto.
  - intros. eauto.
Qed.

End Properties.

(** ** The external API guard *)



(** ** What each segment changes *)

Ltac solve_objs :=
  repeat match goal with
  | |- context [(<[?a := _]> _) ?b] =>
      destruct (decide (a = b)) as [<-|?];
      [rewrite fn_lookup_insert | rewrite fn_lookup_insert_ne by done]
  end; simpl; auto.

Ltac solve_quiet :=
  unfold quiet, events_le; unfold_M; simpl; repeat case_match; simplify_eq/=;
  repeat split; intros; solve_objs.

Lemma quiet_refl (m : TrioManager) : quiet m m.
Proof. solve_quiet. Qed.

Lemma cancel_quiet (m : TrioManager) : quiet m (cancel m).2.
Proof. unfold cancel. solve_quiet. Qed.

Lemma done_set_quiet (task : task_ref) (m : TrioManager) : quiet m (done_set task m).2.
Proof. unfold done_set. solve_quiet. Qed.

Lemma errors_append_quiet (e : exn) (m : TrioManager) : quiet m (errors_append e m).2.
Proof. unfold errors_append. solve_quiet. Qed.

Lemma quiet_trans (m1 m2 m3 : TrioManager) : quiet m1 m2 → quiet m2 m3 → quiet m1 m3.
Proof.
  intros (E1 & L1 & D1 & N1 & P1 & O1) (E2 & L2 & D2 & N2 & P2 & O2).
  repeat split; try congruence; try (unfold events_le in *; intuition auto; fail).
Qed.

Lemma run_start_quiet (m : TrioManager) : quiet m (run_start m).2.
Proof.
  unfold run_start, run_open_task_nursery, task_nursery_start_soon. solve_quiet.
Qed.

Lemma set_trio_task_quiet (task : task_ref) (t : trio_task_id) (m : TrioManager) :
  quiet m (set_trio_task task t m).2.
Proof. unfold set_trio_task. solve_quiet. Qed.

Lemma managed_outcome_quiet (body : completion unit) (daemon : bool) (name : string)
    (task : task_ref) (m : TrioManager) :
  quiet m (managed_outcome body daemon name task m).2.
Proof.
  unfold managed_outcome.
  destruct body as [[]|e]; [destruct daemon|destruct (is_Exception e)]; simpl.
  - eapply quiet_trans; [apply cancel_quiet|apply done_set_quiet].
  - apply done_set_quiet.
  - eapply quiet_trans; [apply errors_append_quiet|].
    eapply quiet_trans; [apply cancel_quiet|apply done_set_quiet].
  - apply done_set_quiet.
Qed.

Lemma handle_run_body_state (body : completion unit) (task : task_ref) (m : TrioManager) :
  (handle_run_body (λ m, (body, m)) task m).2 =
    match leave_scope (TaskScope task) body with
    | Raised e =>
        if is_Exception e then (done_set task (cancel (errors_append e m).2).2).2
        else (done_set task m).2
    | Normal _ => (done_set task m).2
    end.
Proof.
  unfold handle_run_body, try_finally, try_except_else, with_scope.
  destruct (leave_scope (TaskScope task) body) as [[]|e]; [done|].
  destruct (is_Exception e); [|done].
  unfold mbind, M_bind. simpl.
  by destruct (cancel _) as [[[]|?] ?].
Qed.

Lemma handle_run_body_quiet (body : completion unit) (task : task_ref) (m : TrioManager) :
  quiet m (handle_run_body (λ m, (body, m)) task m).2.
Proof.
  rewrite handle_run_body_state.
  destruct (leave_scope _ _) as [[]|e]; [|destruct (is_Exception e)].
  - apply done_set_quiet.
  - eapply quiet_trans; [apply errors_append_quiet|].
    eapply quiet_trans; [apply cancel_quiet|apply done_set_quiet].
  - apply done_set_quiet.
Qed.

Lemma _handle_cancelled_quiet (h h' : handler_state) (m m' : TrioManager) :
  _handle_cancelled h m = Some (h', m') → quiet m m'.
Proof.
  unfold _handle_cancelled, cancel_scope_cancel, task_nursery_cancel.
  intros H. destruct h as [| snap v [|t r] | snap v t r |];
    repeat case_match; simplify_eq/=; solve_quiet.
Qed.

(** ** The steps of the system *)

Lemma handle_run_enter_creates (current_task : trio_task_id) (m : TrioManager) :
  ∃ m', handle_run_enter current_task m = (Normal (next_ref m), m') ∧
        creates m m' (next_ref m) None.
Proof.
  unfold handle_run_enter, new_Task. unfold_M. simpl.
  eexists. split; [reflexivity|].
  unfold creates, events_le. simpl.
  rewrite !fn_lookup_insert.
  repeat split; auto. intros t' Hne. by rewrite fn_lookup_insert_ne.
Qed.

Section Steps.

Variable get_task_name : nameable → option string → string.

Lemma run_task_creates (current_task : trio_task_id) (async_fn : callable)
    (daemon : bool) (name : option string) (m : TrioManager) :
  let m' := (run_task get_task_name current_task async_fn daemon name m).2 in
  m' = m ∨
  (is_running m = true ∧ is_cancelled m = false ∧
   creates m m' (next_ref m) (_get_parent_task m current_task)).
Proof.
  unfold run_task.
  destruct (is_running m) eqn:Hr; simpl; [|by left].
  destruct (is_cancelled m) eqn:Hc; simpl; [by left|].
  right. split; [done|]. split; [done|].
  unfold new_Task, dag_append, dict_append, task_nursery_start_soon. unfold_M. simpl.
  rewrite fn_lookup_insert. simpl.
  destruct (_get_parent_task m current_task) as [p|] eqn:Hp.
  - destruct (get_parent_task_key m current_task p Hp) as [Hk _].
    apply dict_get_is_Some in Hk as [children Hk]. rewrite Hk. simpl.
    unfold creates, events_le, is_cancelled in *.
    destruct (_task_nursery m); simpl; rewrite ?fn_lookup_insert, ?Hk; simpl;
      (repeat split; auto; try (intros t Ht; by rewrite fn_lookup_insert_ne)).
    all: unfold dict_append; by rewrite Hk.
  - simpl. unfold creates, events_le, is_cancelled in *.
    destruct (_task_nursery m); simpl; rewrite ?fn_lookup_insert; simpl;
      (repeat split; auto; try (intros t Ht; by rewrite fn_lookup_insert_ne)).
Qed.

Lemma step_kinds (l : label) (s s' : System) :
  step get_task_name l s = Some s' → step_kind l s s'.
Proof.
  intros H. unfold step in H.
  destruct l as [| |exit|cur|body|sp cur|sp body|cur fn dmn nm| |]; cbv beta iota zeta in H.
  - (* Run_acquire *)
    simplify_eq. unfold run_acquire.
    destruct (_run_lock (mgr s)) eqn:Hl; simpl; [apply step_quiet; cbn [mgr handler run_task_ref]; auto using quiet_refl|].
    destruct (is_started (mgr s)) eqn:Hs; simpl; [apply step_quiet; cbn [mgr handler run_task_ref]; auto using quiet_refl|].
    by apply step_acquire.
  - (* Run_start *)
    case_match; simplify_eq. apply step_quiet; cbn [mgr handler run_task_ref]; auto using run_start_quiet.
  - (* Run_leave *)
    case_match eqn:Hen; simplify_eq.
    apply andb_prop in Hen as [Hen _]. apply andb_prop in Hen as [Hen _].
    apply andb_prop in Hen as [_ Hen].
    by eapply step_leave.
  - (* Handle_run_enter *)
    destruct (run_task_ref s) eqn:Hrt; [done|].
    case_match; [|done].
    destruct (handle_run_enter_creates cur (mgr s)) as (m' & Hm & Hcr).
    rewrite Hm in H. simplify_eq. by eapply step_create_run.
  - (* Handle_run_exit *)
    destruct (run_task_ref s) eqn:Hrt; [|done].
    case_match; simplify_eq. apply step_quiet; cbn [mgr handler run_task_ref]; auto using handle_run_body_quiet.
  - (* Task_enter *)
    case_match; simplify_eq. apply step_quiet; cbn [mgr handler run_task_ref]; auto using set_trio_task_quiet.
  - (* Task_exit *)
    case_match; simplify_eq. apply step_quiet; cbn [mgr handler run_task_ref]; auto.
    rewrite managed_body_outcome. apply managed_outcome_quiet.
  - (* Call_run_task *)
    simplify_eq.
    destruct (run_task_creates cur fn dmn nm (mgr s)) as [Heq|(Hr & Hc & Hcr)].
    + apply step_quiet; cbn [mgr handler run_task_ref]; auto. rewrite Heq. apply quiet_refl.
    + by eapply step_create.
  - (* Call_cancel *)
    simplify_eq. apply step_quiet; cbn [mgr handler run_task_ref]; auto using cancel_quiet.
  - (* Handler_step *)
    repeat case_match; simplify_eq.
    apply step_handler; cbn [mgr handler run_task_ref]; eauto using _handle_cancelled_quiet.
Qed.

End Steps.

(** ** Rejecting a second [run] *)

Section Double_run.

Variable get_task_name : nameable → option string → string.

Lemma step_events (l : label) (s s' : System) :
  step get_task_name l s = Some s' → events_le (mgr s) (mgr s').
Proof.
  intros [Hq| Hq | Hl Hs Hm | exit _ Hs Hm | task cur _ Hc | task cur fn dm nm _ Hr Hc Hcr]%step_kinds.
  - apply Hq.
  - apply Hq.
  - rewrite Hm. by repeat split.
  - rewrite Hm. apply run_leave_events.
  - apply Hc.
  - apply Hcr.
Qed.







End Double_run.


(** ** Child lists *)

Lemma dict_get_elem (d : Dag) (p : task_ref) (cs : list task_ref) :
  dict_get p d = Some cs → (p, cs) ∈ d.
Proof.
  induction d as [|[k v] d IH]; simpl; [done|].
  destruct (decide (p = k)) as [->|Hne].
  - intros [= ->]. left.
  - intros H. right. by apply IH.
Qed.

Lemma dict_get_NoDup (d : Dag) (p : task_ref) (cs : list task_ref) :
  NoDup (dict_keys d) → (p, cs) ∈ d → dict_get p d = Some cs.
Proof.
  unfold dict_keys. induction d as [|[k v] d IH]; simpl.
  - by intros _ ?%elem_of_nil.
  - intros [Hk Hnd]%list.NoDup_cons [Heq|Hin]%elem_of_cons.
    + injection Heq as -> ->. by rewrite decide_True.
    + destruct (decide (p = k)) as [->|Hne]; [|by apply IH].
      destruct Hk. apply list_elem_of_fmap. by exists (k, cs).
Qed.

Lemma elem_of_child_lists (d : Dag) (k : task_ref) :
  NoDup (dict_keys d) → (k ∈ mjoin (d.*2) ↔ ∃ p, k ∈ dag_children d p).
Proof.
  intros Hnd. split.
  - intros (cs & Hk & Hcs)%list_elem_of_join.
    apply list_elem_of_fmap in Hcs as ([p cs'] & -> & Hin). simpl in Hk.
    exists p. unfold dag_children. by rewrite (dict_get_NoDup d p cs').
  - intros [p Hk]. unfold dag_children in Hk.
    destruct (dict_get p d) as [cs|] eqn:Hg; [|by apply elem_of_nil in Hk].
    apply list_elem_of_join. exists cs. split; [done|].
    apply list_elem_of_fmap. exists (p, cs). split; [done|]. by apply dict_get_elem.
Qed.

Lemma dag_children_not_key (d : Dag) (k : task_ref) :
  k ∉ dict_keys d → dag_children d k = [].
Proof.
  intros Hk. unfold dag_children.
  destruct (dict_get k d) eqn:Hg; [|done].
  destruct Hk. apply dict_get_is_Some. eauto.
Qed.

Lemma dag_ordered_child_key (d : Dag) (p c : task_ref) :
  dag_ordered d → c ∈ dag_children d p → c ∈ dict_keys d ∧ p ∈ dict_keys d.
Proof.
  intros Hord Hc.
  assert (p ∈ dict_keys d) as Hp.
  { destruct (decide (p ∈ dict_keys d)) as [|Hn]; [done|].
    rewrite (dag_children_not_key d p Hn) in Hc. by apply elem_of_nil in Hc. }
  split; [|done].
  pose proof Hp as [i Hi]%list_elem_of_lookup.
  destruct (Hord i p c Hi Hc) as (j & _ & Hj).
  apply list_elem_of_lookup. eauto.
Qed.

(** ** The order of [iter_dag] *)

Lemma closed_order_app (d : Dag) (l1 l2 : list task_ref) :
  closed_order d l1 → closed_order d l2 → closed_order d (l1 ++ l2).
Proof.
  intros H1 H2. induction H2 as [|l p H2 IH Hp]; [by rewrite app_nil_r|].
  rewrite app_assoc. constructor; [done|].
  intros c Hc. apply elem_of_app. right. by apply Hp.
Qed.

Lemma closed_order_bind (d : Dag) (f : task_ref → list task_ref) (l : list task_ref) :
  (∀ x, x ∈ l → closed_order d (f x)) → closed_order d (l ≫= f).
Proof.
  induction l as [|x l IH]; intros H; [constructor|].
  rewrite bind_cons. apply closed_order_app.
  - apply H. left.
  - apply IH. intros y Hy. apply H. by right.
Qed.

Lemma closed_order_before (d : Dag) (l1 l2 : list task_ref) (p c : task_ref) :
  closed_order d (l1 ++ p :: l2) → c ∈ dag_children d p → c ∈ l1.
Proof.
  intros H. remember (l1 ++ p :: l2) as l eqn:Hl. revert l2 Hl.
  induction H as [|l q H IH Hq]; intros l2 Hl Hc.
  - by destruct l1.
  - destruct l2 as [|x l2 _] using rev_ind.
    + apply app_inj_tail in Hl as [-> ->]. by apply Hq.
    + rewrite app_comm_cons, app_assoc in Hl.
      apply app_inj_tail in Hl as [-> ->]. by eapply IH.
Qed.

Lemma iter_subtree_closed (d : Dag) (fuel : nat) (t : task_ref) (i : nat) :
  dag_ordered d → dict_keys d !! i = Some t → (length d - i ≤ fuel)%nat →
  closed_order d (iter_subtree fuel d t) ∧ t ∈ iter_subtree fuel d t.
Proof.
  intros Hord. revert t i. induction fuel as [|fuel IH]; intros t i Hi Hfuel.
  - apply lookup_lt_Some in Hi. unfold dict_keys in Hi. rewrite length_fmap in Hi. lia.
  - simpl. split; [|apply elem_of_app; right; left].
    constructor.
    + apply closed_order_bind. intros c Hc. rewrite elem_of_reverse in Hc.
      destruct (Hord i t c Hi Hc) as (j & Hj & Hcj).
      apply (IH c j Hcj). lia.
    + intros c Hc. apply list_elem_of_bind. exists c. split; [|by rewrite elem_of_reverse].
      destruct (Hord i t c Hi Hc) as (j & Hj & Hcj).
      apply (IH c j Hcj). lia.
Qed.

Lemma dag_roots_keys (d : Dag) (t : task_ref) : t ∈ dag_roots d → t ∈ dict_keys d.
Proof. unfold dag_roots. by intros [_ ?]%list_elem_of_filter. Qed.

(** Under [dag_ordered], [iter_dag] is a reverse topological order. *)
Lemma iter_dag_closed (d : Dag) : dag_ordered d → closed_order d (iter_dag d).
Proof.
  intros Hord. unfold iter_dag. apply closed_order_bind.
  intros r Hr. rewrite elem_of_reverse in Hr. apply dag_roots_keys in Hr.
  apply list_elem_of_lookup in Hr as [i Hi].
  apply (iter_subtree_closed d (length d) r i Hord Hi). lia.
Qed.

Lemma iter_subtree_keys (d : Dag) (fuel : nat) (t x : task_ref) :
  dag_ordered d → t ∈ dict_keys d → x ∈ iter_subtree fuel d t → x ∈ dict_keys d.
Proof.
  intros Hord. revert t. induction fuel as [|fuel IH]; intros t Ht; simpl.
  - by intros ?%elem_of_nil.
  - intros [Hx|Hx]%elem_of_app.
    + apply list_elem_of_bind in Hx as (c & Hx & Hc). rewrite elem_of_reverse in Hc.
      apply list_elem_of_lookup in Ht as [i Hi].
      destruct (Hord i t c Hi Hc) as (j & _ & Hj).
      apply (IH c); [|done]. apply list_elem_of_lookup. eauto.
    + apply list_elem_of_singleton in Hx as ->. done.
Qed.

Lemma iter_dag_keys (d : Dag) (x : task_ref) :
  dag_ordered d → x ∈ iter_dag d → x ∈ dict_keys d.
Proof.
  intros Hord (r & Hx & Hr)%list_elem_of_bind.
  rewrite elem_of_reverse in Hr. apply dag_roots_keys in Hr.
  by apply (iter_subtree_keys d (length d) r x).
Qed.

Lemma iter_subtree_children (d : Dag) (fuel : nat) (x y c : task_ref) (i : nat) :
  dag_ordered d → dict_keys d !! i = Some x → (length d - i ≤ fuel)%nat →
  y ∈ iter_subtree fuel d x → c ∈ dag_children d y → c ∈ iter_subtree fuel d x.
Proof.
  intros Hord. revert x i. induction fuel as [|fuel IH]; intros x i Hi Hfuel; simpl.
  - by intros ?%elem_of_nil.
  - intros [Hy|Hy]%elem_of_app Hc; apply elem_of_app; left; apply list_elem_of_bind.
    + apply list_elem_of_bind in Hy as (x' & Hy & Hx'). exists x'. split; [|done].
      rewrite elem_of_reverse in Hx'.
      destruct (Hord i x x' Hi Hx') as (j & Hj & Hxj).
      apply (IH x' j); auto. lia.
    + apply list_elem_of_singleton in Hy as ->. exists c.
      split; [|by rewrite elem_of_reverse].
      destruct (Hord i x c Hi Hc) as (j & Hj & Hcj).
      apply (iter_subtree_closed d fuel c j); auto. lia.
Qed.

(** Under [dag_ordered], with distinct keys, [iter_dag] visits every node. *)
Lemma iter_dag_complete (d : Dag) (k : task_ref) :
  dag_ordered d → NoDup (dict_keys d) → k ∈ dict_keys d → k ∈ iter_dag d.
Proof.
  intros Hord Hnd Hk. apply list_elem_of_lookup in Hk as [j Hj].
  revert k Hj. induction j as [j IH] using lt_wf_ind. intros k Hj.
  destruct (decide (k ∈ dag_roots d)) as [Hr|Hr].
  - apply list_elem_of_bind. exists k. split; [|by rewrite elem_of_reverse].
    apply (iter_subtree_closed d (length d) k j); auto. lia.
  - assert (k ∈ mjoin (d.*2)) as Hin.
    { destruct (decide (k ∈ mjoin (d.*2))) as [|Hn]; [done|].
      destruct Hr. apply list_elem_of_filter. split; [done|].
      apply list_elem_of_lookup. eauto. }
    apply elem_of_child_lists in Hin as [p Hp]; [|done].
    destruct (dag_ordered_child_key d p k Hord Hp) as [_ Hpk].
    apply list_elem_of_lookup in Hpk as [i Hi].
    destruct (Hord i p k Hi Hp) as (j' & Hij & Hj').
    assert (j' = j) as -> by (by eapply NoDup_lookup).
    pose proof (IH i Hij p Hi) as Hpin.
    apply list_elem_of_bind in Hpin as (r & Hpr & Hrr).
    apply list_elem_of_bind. exists r. split; [|done].
    rewrite elem_of_reverse in Hrr. apply dag_roots_keys in Hrr.
    apply list_elem_of_lookup in Hrr as [ir Hir].
    apply (iter_subtree_children d (length d) r p k ir); auto. lia.
Qed.

(** ** The DAG stays well formed *)

Lemma dag_children_setitem (k k' : task_ref) (v : list task_ref) (d : Dag) :
  dag_children (dict_setitem k v d) k' = if decide (k = k') then v else dag_children d k'.
Proof.
  unfold dag_children. destruct (decide (k = k')) as [->|Hne].
  - by rewrite dict_get_setitem_eq.
  - by rewrite dict_get_setitem_ne.
Qed.


Lemma creates_dag (m m' : TrioManager) (task : task_ref) (par : option task_ref) :
  creates m m' task par →
  task ∉ dict_keys (_service_task_dag m) →
  (∀ p, par = Some p → p ∈ dict_keys (_service_task_dag m)) →
  dict_keys (_service_task_dag m') = dict_keys (_service_task_dag m) ++ [task] ∧
  ∀ k, dag_children (_service_task_dag m') k =
         if decide (k = task) then []
         else if decide (par = Some k) then dag_children (_service_task_dag m) k ++ [task]
         else dag_children (_service_task_dag m) k.
Proof.
  intros (_ & _ & _ & _ & _ & _ & _ & _ & Hd) Hfresh Hpar. rewrite Hd.
  destruct par as [p|].
  - specialize (Hpar p eq_refl).
    pose proof Hpar as [children Hc]%dict_get_is_Some.
    unfold dict_append. rewrite Hc. simpl.
    assert (p ≠ task) as Hne by (by intros ->).
    split.
    + rewrite dict_keys_setitem_new; rewrite dict_keys_setitem_old; done.
    + intros k. rewrite !dag_children_setitem.
      destruct (decide (k = task)) as [->|Hk].
      * by rewrite decide_True.
      * rewrite decide_False by done.
        destruct (decide (p = k)) as [->|Hpk].
        -- rewrite decide_True by done. unfold dag_children. by rewrite Hc.
        -- rewrite decide_False; [done|]. by intros [= ->].
  - split.
    + by rewrite dict_keys_setitem_new.
    + intros k. rewrite dag_children_setitem.
      destruct (decide (k = task)) as [->|Hk].
      * by rewrite decide_True.
      * by rewrite decide_False.
Qed.


Lemma dag_wf_same (s s' : System) :
  dag_wf s →
  _service_task_dag (mgr s') = _service_task_dag (mgr s) →
  next_ref (mgr s') = next_ref (mgr s) →
  (∀ t, parent (objs (mgr s') t) = parent (objs (mgr s) t)) →
  run_task_ref s' = run_task_ref s →
  dag_wf s'.
Proof.
  intros [H1 H2 H3 H4 H5 H6] Hd Hn Hp Hr.
  constructor; rewrite ?Hd, ?Hn, ?Hr; try done.
  - intros k p. rewrite Hp. apply H4.
  - intros p c. rewrite Hp. apply H5.
  - intros t. rewrite Hp. apply H6.
Qed.

Lemma dag_wf_creates (s s' : System) (task : task_ref) (par : option task_ref) :
  dag_wf s →
  creates (mgr s) (mgr s') task par →
  (∀ p, par = Some p → p ∈ dict_keys (_service_task_dag (mgr s))) →
  (run_task_ref s' = run_task_ref s ∨ (run_task_ref s' = Some task ∧ par = None)) →
  dag_wf s'.
Proof.
  intros [H1 H2 H3 H4 H5 H6] Hcr Hpar Hrun.
  pose proof Hcr as (-> & Hnext & _ & _ & _ & Hobjs & Hparent & _ & _).
  set (task := next_ref (mgr s)) in *.
  assert (task ∉ dict_keys (_service_task_dag (mgr s))) as Hfresh.
  { intros Hin%H1. unfold task in Hin. lia. }
  destruct (creates_dag _ _ _ _ Hcr Hfresh Hpar) as [Hkeys Hch].
  constructor.
  - rewrite Hkeys, Hnext. intros k [Hk|Hk%list_elem_of_singleton]%elem_of_app.
    + apply H1 in Hk. lia.
    + subst k. unfold task. lia.
  - rewrite Hkeys. apply list.NoDup_app. split; [done|].
    split; [|apply NoDup_singleton].
    intros k Hk Hk'%list_elem_of_singleton. by subst k.
  - intros i t c. rewrite Hkeys, Hch. intros Hi Hc.
    destruct (decide (t = task)) as [->|Ht]; [by apply elem_of_nil in Hc|].
    assert (dict_keys (_service_task_dag (mgr s)) !! i = Some t) as Hi'.
    { apply lookup_app_Some in Hi as [Hi|[_ Hi]]; [done|].
      apply list_lookup_singleton_Some in Hi as [_ ?]. done. }
    assert (c ∈ dag_children (_service_task_dag (mgr s)) t ∨ c = task) as [Hc'| ->].
    { destruct (decide (par = Some t)); [|by left].
      apply elem_of_app in Hc as [?|?%list_elem_of_singleton]; auto. }
    + destruct (H3 i t c Hi' Hc') as (j & Hj & Hcj).
      exists j. split; [done|]. by apply lookup_app_l_Some.
    + exists (length (dict_keys (_service_task_dag (mgr s)))). split.
      * by apply lookup_lt_Some in Hi'.
      * rewrite lookup_app_r by done. by rewrite Nat.sub_diag.
  - intros k p. rewrite Hkeys, Hch.
    intros [Hk|Hk%list_elem_of_singleton]%elem_of_app Hp; [|subst k].
    + assert (k ≠ task) as Hne by (by intros ->).
      rewrite Hobjs in Hp by done. pose proof (H4 k p Hk Hp) as Hin.
      destruct (dag_ordered_child_key _ _ _ H3 Hin) as [_ Hpk].
      rewrite decide_False by (by intros ->).
      destruct (decide (par = Some p)); [|done].
      apply elem_of_app. by left.
    + rewrite Hparent in Hp.
      rewrite decide_False by (intros ->; by apply Hpar in Hp).
      rewrite decide_True by done. apply elem_of_app. right. left.
  - intros p c. rewrite Hch.
    destruct (decide (p = task)) as [->|Hp]; [by intros ?%elem_of_nil|].
    intros Hc.
    assert (c ∈ dag_children (_service_task_dag (mgr s)) p ∨ (c = task ∧ par = Some p))
      as [Hc'|[-> Hpp]].
    { destruct (decide (par = Some p)); [|by left].
      apply elem_of_app in Hc as [?|?%list_elem_of_singleton]; auto. }
    + destruct (dag_ordered_child_key _ _ _ H3 Hc') as [Hck _].
      rewrite Hobjs by (by intros ->). by apply H5.
    + by rewrite Hparent.
  - intros t Ht. rewrite Hkeys.
    destruct Hrun as [Hr|[Hr ->]].
    + rewrite Hr in Ht. destruct (H6 t Ht) as [Hk Hp].
      split; [apply elem_of_app; by left|].
      rewrite Hobjs; [done|]. by intros ->.
    + rewrite Hr in Ht. injection Ht as <-.
      split; [apply elem_of_app; right; left|done].
Qed.

(** ** Invariants of the system *)

Lemma iterating_mono (s s' : System) (snapshot : Dag) (visited rest : list task_ref) :
  iterating s snapshot visited rest →
  (next_ref (mgr s) ≤ next_ref (mgr s'))%nat →
  (∀ t, (t < next_ref (mgr s))%nat →
        done_is_set (mgr s) t = true → done_is_set (mgr s') t = true) →
  (is_cancelled (mgr s) = true → is_cancelled (mgr s') = true) →
  (∃ more, _service_task_dag (mgr s') = _service_task_dag (mgr s) ++ more) →
  iterating s' snapshot visited rest.
Proof.
  intros (Ho & [Hord Hnd] & Hlt & Hdone & Hc & later & Hd) Hn Hdm Hcm [more Hd'].
  repeat split; auto.
  - intros t Ht. apply Hlt in Ht. lia.
  - intros t Ht. apply Hdm; [|by apply Hdone].
    apply Hlt. apply elem_of_app. by left.
  - exists (later ++ more). by rewrite Hd', Hd, app_assoc.
Qed.

Lemma iterating_quiet (s s' : System) (snapshot : Dag) (visited rest : list task_ref) :
  iterating s snapshot visited rest → quiet (mgr s) (mgr s') →
  iterating s' snapshot visited rest.
Proof.
  intros Hit ((_ & Hc & _) & _ & Hd & Hn & _ & Hdone).
  apply (iterating_mono s s'); auto.
  - lia.
  - intros t _. apply Hdone.
  - exists []. by rewrite app_nil_r.
Qed.

Section Invariants.

Variable get_task_name : nameable → option string → string.

Lemma step_dag_wf (l : label) (s s' : System) :
  step get_task_name l s = Some s' → dag_wf s → dag_wf s'.
Proof.
  intros [[_ [_ [Hd [Hn [Hp _]]]]] Hr _
         |[_ [_ [Hd [Hn [Hp _]]]]] Hr _
         | _ _ Hm Hr _ | exit _ _ Hm Hr _
         | task cur _ Hcr Hr0 Hr _ | task cur fn dm nm _ _ _ Hcr Hr _]%step_kinds Hwf.
  - by apply (dag_wf_same s s').
  - by apply (dag_wf_same s s').
  - apply (dag_wf_same s s'); rewrite ?Hm; done.
  - apply (dag_wf_same s s'); rewrite ?Hm, ?run_leave_state; done.
  - apply (dag_wf_creates s s' task None); auto. done.
  - apply (dag_wf_creates s s' task (_get_parent_task (mgr s) cur)); auto.
    intros p Hp. by apply (get_parent_task_key _ cur).
Qed.

Lemma step_handler_inv (l : label) (s s' : System) :
  step get_task_name l s = Some s' → dag_wf s → handler_inv s → handler_inv s'.
Proof.
  intros [Hq Hr Hh | Hq Hr Hh | _ _ Hm Hr Hh | exit _ _ Hm Hr Hh
         | task cur _ Hcr Hr0 Hr Hh | task cur fn dm nm _ _ Hnc Hcr Hr Hh]%step_kinds Hwf Hinv;
    unfold handler_inv in *.
  - rewrite Hh. destruct (handler s); eauto using iterating_quiet.
  - unfold _handle_cancelled in Hh.
    destruct (handler s) as [|snap v [|t r]|snap v t r|] eqn:Hhs.
    + destruct (is_cancelled (mgr s)) eqn:Hc; [|done].
      injection Hh as Hh' Hm. rewrite <- Hh'. unfold iterating. rewrite <- Hm.
      pose proof (wf_ordered s Hwf) as Hord. pose proof (wf_nodup s Hwf) as Hnd.
      repeat split; auto.
      * intros t Ht. simpl in Ht. apply (wf_fresh s Hwf). by apply iter_dag_keys.
      * by intros t ?%elem_of_nil.
      * exists []. by rewrite app_nil_r.
    + injection Hh as Hh' Hm. by rewrite <- Hh'.
    + injection Hh as Hh' Hm. rewrite <- Hh'. by apply (iterating_quiet s s').
    + destruct (done_is_set (mgr s) t) eqn:Hdone; [|done].
      injection Hh as Hh' Hm. rewrite <- Hh'. unfold iterating in *. rewrite <- Hm.
      destruct Hinv as (Ho & [Hord Hnd] & Hlt & Hd & Hc & Hl).
      repeat split; auto.
      * by rewrite <- app_assoc.
      * rewrite <- app_assoc. done.
      * intros t' [Ht'|Ht'%list_elem_of_singleton]%elem_of_app; [by apply Hd|].
        by subst t'.
    + done.
  - rewrite Hh.
    assert (∀ snap v r, iterating s snap v r → iterating s' snap v r) as Hmono.
    { intros snap v r Hit. apply (iterating_mono s s'); rewrite ?Hm; simpl; auto.
      exists []. by rewrite app_nil_r. }
    destruct (handler s); auto.
  - by rewrite Hh.
  - rewrite Hh.
    pose proof Hcr as (Htask & Hnext & _ & Hc & _ & Hobjs & _ & _ & Hd).
    assert (∀ snap v r, iterating s snap v r → iterating s' snap v r) as Hmono.
    { intros snap v r Hit. apply (iterating_mono s s'); auto.
      - lia.
      - intros t Ht. unfold done_is_set. rewrite Hobjs; [done|lia].
      - unfold is_cancelled. by rewrite Hc.
      - exists [(task, [])]. rewrite Hd. apply dict_setitem_new.
        intros Hin%(wf_fresh s Hwf). lia. }
    destruct (handler s); auto.
  - rewrite Hh.
    destruct (handler s) as [|snap v r|snap v t r|]; try done;
      destruct Hinv as (_ & _ & _ & _ & Hc & _); congruence.
Qed.

Lemma initial_dag_wf (self_ref : manager_ref) (cls : nat) (service : service_ref) :
  dag_wf (initial self_ref cls service).
Proof.
  constructor; simpl.
  - intros k Hk. by apply elem_of_nil in Hk.
  - constructor.
  - intros i t c Hi. done.
  - intros k p Hk. by apply elem_of_nil in Hk.
  - intros p c Hc. by apply elem_of_nil in Hc.
  - done.
Qed.

Lemma reachable_inv (s : System) :
  reachable get_task_name s → dag_wf s ∧ handler_inv s.
Proof.
  induction 1 as [self_ref cls service|l s s' _ [IH1 IH2] Hstep].
  - split; [apply initial_dag_wf|done].
  - split; [by eapply step_dag_wf|by eapply step_handler_inv].
Qed.

Lemma exec_reachable (ls : list label) (s s' : System) :
  reachable get_task_name s → exec get_task_name ls s = Some s' →
  reachable get_task_name s'.
Proof.
  revert s. induction ls as [|l ls IH]; intros s Hs; cbn [exec].
  - by intros [= <-].
  - destruct (step get_task_name l s) as [s1|] eqn:Hstep; [|done].
    apply IH. by eapply reachable_step.
Qed.

End Invariants.

(** ** Roots and parents *)

Section Dag_and_handler.

Variable get_task_name : nameable → option string → string.

(** C9, as amended. In every reachable state of the manager: a node of the
    DAG has no parent exactly when it is a root, that is, in no child list; a
    node has parent [p] exactly when it is in the child list of [p]; the task
    of the service body, once [_handle_run] has created it, is one of the
    roots.  A node enters the DAG either as that task or through [run_task],
    and then its parent is the node that parent inference finds for the
    spawning Trio task.  Parent inference returns the first node whose Trio
    task is set and is the spawning task, and returns [None] exactly when no
    node has that Trio task (nodes whose Trio task is unset never match): in
    that case [run_task] adds one more parentless root. *)
Theorem dag_roots_and_parents (s : System) :
  reachable get_task_name s →
  let m := mgr s in
  let d := _service_task_dag m in
  (∀ k, k ∈ dict_keys d → (parent (objs m k) = None ↔ k ∈ dag_roots d)) ∧
  (∀ k p, k ∈ dict_keys d → (parent (objs m k) = Some p ↔ k ∈ dag_children d p)) ∧
  (∀ t, run_task_ref s = Some t → t ∈ dag_roots d) ∧
  (∀ l s' k, step get_task_name l s = Some s' →
     k ∈ dict_keys (_service_task_dag (mgr s')) → k ∉ dict_keys d →
     (∃ cur, l = Handle_run_enter cur ∧ run_task_ref s' = Some k ∧
             parent (objs (mgr s') k) = None) ∨
     (∃ cur fn dm nm, l = Call_run_task cur fn dm nm ∧
             parent (objs (mgr s') k) = _get_parent_task m cur)) ∧
  (∀ cur,
     (_get_parent_task m cur = None ↔
        ∀ k, k ∈ dict_keys d → _trio_task (objs m k) ≠ Some cur) ∧
     (∀ p, _get_parent_task m cur = Some p →
        ∃ before after, dict_keys d = before ++ p :: after ∧
          _trio_task (objs m p) = Some cur ∧
          ∀ k, k ∈ before → _trio_task (objs m k) ≠ Some cur)).
Proof.
  intros Hreach m d.
  destruct (reachable_inv get_task_name s Hreach) as [[H1 H2 H3 H4 H5 H6] _].
  fold m d in H1, H2, H3, H4, H5, H6.
  assert (∀ k p, k ∈ dict_keys d → (parent (objs m k) = Some p ↔ k ∈ dag_children d p))
    as Hpar.
  { intros k p Hk. split; [by apply H4|by apply H5]. }
  assert (∀ k, k ∈ dict_keys d → (parent (objs m k) = None ↔ k ∈ dag_roots d)) as Hroot.
  { intros k Hk. unfold dag_roots. rewrite list_elem_of_filter.
    rewrite (elem_of_child_lists d k H2). split.
    - intros Hn. split; [|done]. intros [p Hp]. apply H5 in Hp. congruence.
    - intros [Hn _]. destruct (parent (objs m k)) as [p|] eqn:Hp; [|done].
      destruct Hn. exists p. by apply H4. }
  split; [done|]. split; [done|]. split; [|split].
  - intros t Ht. destruct (H6 t Ht) as [Hk Hp]. by apply Hroot.
  - intros l s' k Hstep Hk' Hk.
    pose proof Hstep as
      [[_ [_ [Hd _]]] _ _ | [_ [_ [Hd _]]] _ _ | _ _ Hm _ _ | exit _ _ Hm _ _
      | task cur -> Hcr _ Hr _ | task cur fn dm nm -> _ _ Hcr _ _]%step_kinds.
    + rewrite Hd in Hk'. done.
    + rewrite Hd in Hk'. done.
    + rewrite Hm in Hk'. done.
    + rewrite Hm, run_leave_state in Hk'. done.
    + left. exists cur.
      assert (task ∉ dict_keys d) as Hfresh.
      { destruct Hcr as (-> & _). intros Hin%H1. unfold m in Hin. lia. }
      destruct (creates_dag _ _ _ _ Hcr Hfresh) as [Hkeys _]; [done|].
      rewrite Hkeys in Hk'.
      apply elem_of_app in Hk' as [?|Hk'%list_elem_of_singleton]; [done|]. subst k.
      destruct Hcr as (_ & _ & _ & _ & _ & _ & Hp & _). done.
    + right. exists cur, fn, dm, nm.
      assert (task ∉ dict_keys d) as Hfresh.
      { destruct Hcr as (-> & _). intros Hin%H1. unfold m in Hin. lia. }
      destruct (creates_dag _ _ _ _ Hcr Hfresh) as [Hkeys _].
      { intros p Hp. by apply (get_parent_task_key _ cur). }
      rewrite Hkeys in Hk'.
      apply elem_of_app in Hk' as [?|Hk'%list_elem_of_singleton]; [done|]. subst k.
      destruct Hcr as (_ & _ & _ & _ & _ & _ & Hp & _). done.
  - intros cur. split.
    + apply get_parent_task_loop_None.
    + apply get_parent_task_loop_Some.
Qed.

(** ** The cancellation handler *)

(** C1, as amended. The handler waits for [cancelled], then takes a snapshot
    of the DAG and visits its nodes in the order of [iter_dag], in which every
    node comes after all its children (leaves first).  For each node it
    requests cancellation through the cancel scope of the node, then waits
    until the [done] event of the node is set before it goes on.  So for
    every edge parent-child of the snapshot, the [done] event of the child is
    set before the handler requests the cancellation of the parent. *)
Theorem cancellation_order (s : System) :
  reachable get_task_name s →
  (handler s = WaitCancelled →
     _handle_cancelled (handler s) (mgr s) =
       if is_cancelled (mgr s)
       then Some (Iterating (_service_task_dag (mgr s)) []
                    (iter_dag (_service_task_dag (mgr s))), mgr s)
       else None) ∧
  (∀ snap visited rest, handler s = Iterating snap visited rest →
     visited ++ rest = iter_dag snap ∧ closed_order snap (iter_dag snap) ∧
     (∀ k, k ∈ dict_keys snap → k ∈ iter_dag snap) ∧
     (∀ t, t ∈ visited → done_is_set (mgr s) t = true) ∧
     ∃ later, _service_task_dag (mgr s) = snap ++ later) ∧
  (∀ snap visited task rest, handler s = Iterating snap visited (task :: rest) →
     ∃ m', _handle_cancelled (handler s) (mgr s)
             = Some (WaitDone snap visited task rest, m') ∧
           cancel_scope (objs m' task) = true) ∧
  (∀ snap visited task rest, handler s = WaitDone snap visited task rest →
     visited ++ task :: rest = iter_dag snap ∧
     _handle_cancelled (handler s) (mgr s) =
       if done_is_set (mgr s) task
       then Some (Iterating snap (visited ++ [task]) rest, mgr s)
       else None) ∧
  (∀ snap visited p rest c, handler s = Iterating snap visited (p :: rest) →
     c ∈ dag_children snap p →
     c ∈ visited ∧ done_is_set (mgr s) c = true).
Proof.
  intros Hreach.
  destruct (reachable_inv get_task_name s Hreach) as [_ Hinv].
  unfold handler_inv in Hinv.
  split; [|split; [|split; [|split]]].
  - intros ->. reflexivity.
  - intros snap visited rest Hh. rewrite Hh in Hinv.
    destruct Hinv as (Ho & [Hord Hnd] & _ & Hd & _ & Hl).
    repeat split; auto; [by apply iter_dag_closed|].
    intros k Hk. by apply iter_dag_complete.
  - intros snap visited task rest ->. eexists. split; [reflexivity|].
    unfold cancel_scope_cancel. unfold_M. simpl. by rewrite fn_lookup_insert.
  - intros snap visited task rest Hh. rewrite Hh in Hinv.
    destruct Hinv as (Ho & _). split; [done|]. by rewrite Hh.
  - intros snap visited p rest c Hh Hc. rewrite Hh in Hinv.
    destruct Hinv as (Ho & [Hord _] & _ & Hd & _).
    assert (c ∈ visited) as Hv.
    { apply (closed_order_before snap visited rest p c); [|done].
      rewrite Ho. by apply iter_dag_closed. }
    split; [done|by apply Hd].
Qed.

End Dag_and_handler.

(** ** Examples *)

Lemma cancel_semantics_witness :
  cancel started_manager = (Normal tt, with_cancelled started_manager) ∧
  is_cancelled (cancel started_manager).2 = true ∧
  cancel_n 3 started_manager = cancel_n 1 started_manager.
Proof.
  destruct (cancel_semantics started_manager) as (_ & _ & _ & H & Hn).
  destruct (H eq_refl) as [H1 H2].
  split; [exact H1|]. split; [exact H2|]. exact (Hn 2%nat).
Defined.


Lemma run_child_service_cancelled_witness :
  run_child_service example_task_name 100 5 9 false None cancelled_manager
    = (Normal (TrioManager__init__ 5 0 9), cancelled_manager) ∧
  is_started (TrioManager__init__ 5 0 9) = false.
Proof.
  destruct (run_child_service_cancelled example_task_name 100 5 9 false None
              cancelled_manager eq_refl eq_refl) as (H1 & _ & _ & H2 & _).
  split; [exact H1|exact H2].
Defined.

Lemma after_intro (ls : list label) (P : System → Prop) :
  runs ls = true →
  (∀ s, exec example_task_name ls (initial 0 0 0) = Some s →
        reachable example_task_name s → P s) →
  after ls P.
Proof.
  unfold runs, after. intros Hruns HP.
  destruct (exec example_task_name ls (initial 0 0 0)) as [s|] eqn:He; [|done].
  apply HP; [done|].
  by apply (exec_reachable example_task_name ls (initial 0 0 0));
    [apply reachable_initial|].
Defined.

(** What can be observed of the state a schedule leads to. *)
Lemma exec_observe {A : Type} (f : System → A) (ls : list label) (s : System) :
  exec example_task_name ls (initial 0 0 0) = Some s →
  f <$> exec example_task_name ls (initial 0 0 0) = Some (f s).
Proof. by intros ->. Defined.

Ltac observe He f :=
  let H := fresh "Hobs" in
  let o := fresh "o" in
  let Ho := fresh "Ho" in
  pose proof (exec_observe f _ _ He) as H;
  match type of H with _ = Some ?x => remember x as o eqn:Ho in H end;
  vm_compute in H; injection H as H; rewrite Ho in H; clear Ho; cbv beta in H.

Lemma dag_roots_and_parents_witness :
  after schedule_two_roots (λ s,
    (parent (objs (mgr s) 2%nat) = None ↔
     2%nat ∈ dag_roots (_service_task_dag (mgr s))) ∧
    (parent (objs (mgr s) 1%nat) = Some 0%nat ↔
     1%nat ∈ dag_children (_service_task_dag (mgr s)) 0%nat)).
Proof.
  apply after_intro; [by vm_compute|]. intros s He Hreach.
  destruct (dag_roots_and_parents example_task_name s Hreach) as (H1 & H2 & _).
  observe He (λ s, dict_keys (_service_task_dag (mgr s))).
  split.
  - apply H1. rewrite <- Hobs. do 2 right. left.
  - apply H2. rewrite <- Hobs. right. left.
Defined.

(** C9, as stated, fails: when a Trio task that is not a task of the manager
    calls [run_task], the DAG gets a second node without a parent. *)
Lemma two_parentless_roots :
  after schedule_two_roots (λ s,
    reachable example_task_name s ∧
    run_task_ref s = Some 0%nat ∧
    parentless s = [0%nat; 2%nat] ∧
    length (parentless s) ≠ 1%nat).
Proof.
  apply after_intro; [by vm_compute|]. intros s He Hreach.
  observe He (λ s, (run_task_ref s, parentless s)).
  injection Hobs as Hr Hp. rewrite <- Hr, <- Hp. by repeat split.
Qed.

Lemma cancellation_order_witness :
  after schedule_nested (λ s,
    handler s = Iterating [(0, [1]); (1, [2]); (2, [3]); (3, [])]%nat [3%nat]
                  [2; 1; 0]%nat ∧
    3%nat ∈ [3%nat] ∧ done_is_set (mgr s) 3 = true).
Proof.
  apply after_intro; [by vm_compute|]. intros s He Hreach.
  destruct (cancellation_order example_task_name s Hreach) as (_ & _ & _ & _ & H).
  observe He handler. split; [done|].
  apply (H [(0, [1]); (1, [2]); (2, [3]); (3, [])]%nat [3%nat] 2%nat [1; 0]%nat 3%nat).
  - done.
  - vm_compute. left.
Defined.

(** C1, as stated, fails: the service body returns while the task it spawned
    still runs, so the [done] event of the parent is set and that of the
    child is not when the handler starts to iterate over this edge. *)
Lemma parent_done_before_child :
  after schedule_body_returns_first (λ s,
    reachable example_task_name s ∧
    handler s = Iterating [(0, [1]); (1, [])]%nat [] [1; 0]%nat ∧
    1%nat ∈ dag_children [(0, [1]); (1, [])]%nat 0 ∧
    done_is_set (mgr s) 0 = true ∧
    done_is_set (mgr s) 1 = false).
Proof.
  apply after_intro; [by vm_compute|]. intros s He Hreach.
  observe He (λ s, (handler s, done_is_set (mgr s) 0, done_is_set (mgr s) 1)).
  injection Hobs as Hh H0 H1. rewrite <- Hh, <- H0, <- H1.
  repeat split; [done|]. vm_compute. left.
Qed.

(** * More properties *)

(** ** The Trio task of a [_Task] *)

(** X1. The Trio task of a [_Task] is set once: on a task without one, the
    setter stores the value, which the getter then returns, and leaves the
    other fields and the other tasks as they are; on a task that has one, the
    setter raises [LifecycleError] and changes nothing.  The getter raises
    [LifecycleError] exactly when no Trio task is set. *)
Theorem trio_task_set_once (task : task_ref) (v : trio_task_id) (m : TrioManager) :
  (has_trio_task (objs m task) = false →
     (∃ msg, get_trio_task task m = (Raised (LifecycleError msg), m)) ∧
     ∃ m', set_trio_task task v m = (Normal tt, m') ∧
           get_trio_task task m' = (Normal v, m') ∧
           has_trio_task (objs m' task) = true ∧
           same_identity (objs m task) (objs m' task) ∧
           done (objs m' task) = done (objs m task) ∧
           cancel_scope (objs m' task) = cancel_scope (objs m task) ∧
           (∀ t, t ≠ task → objs m' t = objs m t) ∧
           ∀ v', ∃ msg, set_trio_task task v' m' = (Raised (LifecycleError msg), m')) ∧
  (has_trio_task (objs m task) = true →
     (∃ msg, set_trio_task task v m = (Raised (LifecycleError msg), m)) ∧
     ∃ v0, get_trio_task task m = (Normal v0, m) ∧ _trio_task (objs m task) = Some v0).
Proof.
  unfold has_trio_task, set_trio_task, get_trio_task. unfold_M.
  destruct (_trio_task (objs m task)) as [v0|] eqn:Ht; split; try done.
  - intros _. split; eauto.
  - intros _. split; [eauto|]. eexists. split; [reflexivity|]. simpl.
    rewrite !fn_lookup_insert. simpl. repeat split; eauto.
    intros t Hne. by rewrite fn_lookup_insert_ne.
Qed.

Lemma trio_task_set_once_witness :
  ∃ m', set_trio_task 0 7 started_manager = (Normal tt, m') ∧
        get_trio_task 0 m' = (Normal 7%nat, m') ∧
        ∀ v', ∃ msg, set_trio_task 0 v' m' = (Raised (LifecycleError msg), m').
Proof.
  destruct (trio_task_set_once 0 7 started_manager) as [H _].
  destruct (H eq_refl) as (_ & m' & H1 & H2 & _ & _ & _ & _ & _ & H3).
  exists m'. split; [exact H1|]. split; [exact H2|exact H3].
Defined.

(** ** The service body *)




(** ** Exits of a managed task that store no error *)



(** ** A started task is found as a parent *)

(** X4. Once the wrapper has recorded the Trio task of a node of the DAG, and
    no other node has that Trio task, parent inference for that Trio task
    returns this node: what the task spawns becomes its child.  In the same
    way, once [_handle_run] has registered the task of the service body,
    parent inference for the Trio task of the body returns it. *)
Theorem started_task_is_found (task : task_ref) (current_task : trio_task_id)
    (m : TrioManager) :
  trio_task_unused m current_task = true →
  (task ∈ dict_keys (_service_task_dag m) → has_trio_task (objs m task) = false →
     _get_parent_task (set_trio_task task current_task m).2 current_task = Some task) ∧
  _get_parent_task (handle_run_enter current_task m).2 current_task = Some (next_ref m).
Proof.
  intros Hun.
  assert (∀ k, k ∈ dict_keys (_service_task_dag m) →
               _trio_task (objs m k) ≠ Some current_task) as Hother.
  { intros k Hk. unfold trio_task_unused in Hun.
    rewrite forallb_forall in Hun. apply list_elem_of_In, Hun in Hk.
    apply negb_true_iff, bool_decide_eq_false in Hk. done. }
  assert (∀ (m' : TrioManager) (task : task_ref),
    task ∈ dict_keys (_service_task_dag m') →
    _trio_task (objs m' task) = Some current_task →
    (∀ k, k ∈ dict_keys (_service_task_dag m') → k ≠ task →
          _trio_task (objs m' k) ≠ Some current_task) →
    _get_parent_task m' current_task = Some task) as Hfind.
  { intros m' t Ht Hbound Hrest.
    destruct (_get_parent_task m' current_task) as [p|] eqn:Hp.
    - apply get_parent_task_key in Hp as [Hk Hpt].
      destruct (decide (p = t)) as [->|Hne]; [done|]. by destruct (Hrest p).
    - unfold _get_parent_task in Hp. rewrite get_parent_task_loop_None in Hp.
      by destruct (Hp t). }
  split.
  - intros Hk Hfresh. unfold set_trio_task, has_trio_task in *.
    destruct (_trio_task (objs m task)) eqn:Ht; [done|]. unfold_M. simpl.
    apply Hfind; simpl.
    + done.
    + by rewrite fn_lookup_insert.
    + intros k Hkk Hne. rewrite fn_lookup_insert_ne by done. by apply Hother.
  - unfold handle_run_enter, new_Task. unfold_M. simpl.
    apply Hfind; simpl.
    + apply dict_get_is_Some. rewrite dict_get_setitem_eq. eauto.
    + by rewrite fn_lookup_insert.
    + intros k Hkk Hne. rewrite fn_lookup_insert_ne by done. apply Hother.
      apply dict_get_is_Some. apply dict_get_is_Some in Hkk.
      by rewrite dict_get_setitem_ne in Hkk.
Qed.

Lemma started_task_is_found_witness :
  _get_parent_task (set_trio_task 1 101 manager_with_child).2 101 = Some 1%nat ∧
  _get_parent_task (handle_run_enter 100 started_manager).2 100 = Some 0%nat.
Proof.
  split.
  - refine (proj1 (started_task_is_found 1 101 manager_with_child eq_refl) _ eq_refl).
    vm_compute. right. left.
  - exact (proj2 (started_task_is_found 0 100 started_manager eq_refl)).
Defined.

(** ** What a caller of an external API method can observe *)

(** X11. A wrapped method returns a result only if the manager was running
    when it was called and the wrapped function itself returned that result;
    and it raises only [ServiceCancelled] or the exception that the wrapped
    function raised.  Unless the manager was running, the wrapped function is
    not invoked and nothing is taken from the channel. *)
Theorem external_api_outcomes (func : nat) (self : ServiceAPI) (r : race) :
  (∀ v, outcome (external_api func self r) = Normal v →
     ∃ m result, manager self = Some m ∧ is_running m = true ∧
                 r = Worker_first (Normal result) ∧ v = Some result) ∧
  (∀ e, outcome (external_api func self r) = Raised e →
     (∃ info, e = ServiceCancelled info) ∨ r = Worker_first (Raised e)) ∧
  ((∀ m, manager self = Some m → is_running m = false) →
     invoked (external_api func self r) = [] ∧
     received (external_api func self r) = [] ∧
     ∃ info, outcome (external_api func self r) = Raised (ServiceCancelled info)).
Proof.
  unfold external_api, not_running.
  destruct (manager self) as [m|] eqn:Hm; simpl.
  - destruct (is_running m) eqn:Hr; simpl.
    + split; [|split].
      * intros v Hv. exists m.
        destruct r as [[result|e]|m1 m2]; simpl in Hv.
        -- injection Hv as <-. eauto.
        -- unfold with_traceback in Hv. by destruct (is_Exception e).
        -- unfold _wait_stopping_or_finished in Hv.
           by destruct (is_stopping m1 || is_finished m1).
      * intros e He.
        destruct r as [[result|e0]|m1 m2]; simpl in He; [done| |].
        -- right. unfold with_traceback in He.
           destruct (is_Exception e0); simpl in He; by injection He as <-.
        -- left. unfold _wait_stopping_or_finished, not_running in He.
           destruct (is_stopping m1 || is_finished m1); simpl in He;
             injection He as <-; eauto.
      * intros H. specialize (H m eq_refl). congruence.
    + split; [done|]. split; [|eauto]. intros e [= <-]. eauto.
  - split; [done|]. split; [|eauto]. intros e [= <-]. eauto.
Qed.

Lemma external_api_outcomes_witness :
  invoked (external_api 3 {| manager := Some new_manager |} (Worker_first (Normal 1%nat)))
    = [] ∧
  received (external_api 3 {| manager := Some new_manager |} (Worker_first (Normal 1%nat)))
    = [] ∧
  ∃ info, outcome (external_api 3 {| manager := Some new_manager |}
                     (Worker_first (Normal 1%nat)))
          = Raised (ServiceCancelled info).
Proof.
  destruct (external_api_outcomes 3 {| manager := Some new_manager |}
              (Worker_first (Normal 1%nat))) as (_ & _ & H).
  apply H. intros m Hm. injection Hm as <-. reflexivity.
Defined.

(** ** How [run] leaves the manager *)





(** ** What [stats] counts *)

Lemma count_done_bound (m : TrioManager) (keys : list task_ref) :
  (count_done m keys ≤ length keys)%nat ∧
  ((∀ k, k ∈ keys → done_is_set m k = true) → count_done m keys = length keys) ∧
  (∀ k, k ∈ keys → done_is_set m k = false → (count_done m keys < length keys)%nat).
Proof.
  induction keys as [|k0 keys (IH1 & IH2 & IH3)]; simpl.
  - split; [lia|]. split; [done|]. by intros k ?%elem_of_nil.
  - split; [|split].
    + destruct (done_is_set m k0); lia.
    + intros Hall. rewrite (Hall k0) by left. rewrite IH2; [done|].
      intros k Hk. apply Hall. by right.
    + intros k [->|Hk]%elem_of_cons Hd.
      * rewrite Hd. lia.
      * specialize (IH3 k Hk Hd). destruct (done_is_set m k0); lia.
Qed.

(** X13. [stats] on an empty DAG reports no task at all, not -1.  As long as
    some node of the DAG is not done, [finished_count] is the number of nodes
    that are done, the task of the service body counted like the others.
    When every node of a DAG that is not empty is done, [finished_count]
    equals [total_count], one less than the number of nodes. *)
Theorem stats_clamp (m : TrioManager) :
  let dag := _service_task_dag m in
  (dag = [] → total_count (tasks (stats m)) = 0 ∧ finished_count (tasks (stats m)) = 0) ∧
  (∀ k, k ∈ dict_keys dag → done_is_set m k = false →
     finished_count (tasks (stats m)) = Z.of_nat (count_done m (dict_keys dag)) ∧
     total_count (tasks (stats m)) = Z.of_nat (length dag) - 1) ∧
  (dag ≠ [] → (∀ k, k ∈ dict_keys dag → done_is_set m k = true) →
     finished_count (tasks (stats m)) = total_count (tasks (stats m)) ∧
     total_count (tasks (stats m)) = Z.of_nat (length dag) - 1).
Proof.
  intros dag. unfold stats. simpl. fold dag. unfold len. rewrite count_done_filter.
  destruct (count_done_bound m (dict_keys dag)) as (H1 & H2 & H3).
  assert (length (dict_keys dag) = length dag) as Hlen.
  { unfold dict_keys. by rewrite length_fmap. }
  split; [|split].
  - intros ->. done.
  - intros k Hk Hd. specialize (H3 k Hk Hd). lia.
  - intros Hne Hall. rewrite (H2 Hall). destruct dag; [done|]. simpl in *. lia.
Qed.

Lemma stats_clamp_witness :
  finished_count (tasks (stats (manager_with_nodes [(0, true); (1, false); (2, true)]%nat)))
    = 2 ∧
  finished_count (tasks (stats (manager_with_nodes [(0, true); (1, true)]%nat))) = 1.
Proof.
  split.
  - destruct (stats_clamp (manager_with_nodes [(0, true); (1, false); (2, true)]%nat))
      as (_ & H & _).
    refine (proj1 (H 1%nat _ eq_refl)). vm_compute. right. left.
  - destruct (stats_clamp (manager_with_nodes [(0, true); (1, true)]%nat))
      as (_ & _ & H).
    refine (eq_trans (proj1 (H _ _)) (proj2 (H _ _))); try done;
      intros k Hk; vm_compute in Hk;
      repeat (apply elem_of_cons in Hk as [->|Hk]; [reflexivity|]);
      by apply elem_of_nil in Hk.
Defined.

(** ** Nothing is taken back *)

Lemma task_le_refl (t : _Task) : task_le t t.
Proof. by repeat split. Qed.

Lemma task_le_trans (t1 t2 t3 : _Task) : task_le t1 t2 → task_le t2 t3 → task_le t1 t3.
Proof.
  intros ((N1 & D1 & P1) & H1 & C1 & T1) ((N2 & D2 & P2) & H2 & C2 & T2).
  repeat split; try congruence; auto.
Qed.

Lemma grows_refl (m : TrioManager) : grows m m.
Proof. repeat split; auto; done. Qed.

Lemma grows_trans (m1 m2 m3 : TrioManager) : grows m1 m2 → grows m2 m3 → grows m1 m3.
Proof.
  intros (N1 & T1 & E1 & U1 & S1) (N2 & T2 & E2 & U2 & S2).
  split; [lia|]. split; [|split; [|split]].
  - intros t Ht. eapply task_le_trans; [by apply T1|]. apply T2. lia.
  - by etrans.
  - auto.
  - intros H. destruct (S2 H) as [H'|H']; [|by right].
    destruct (S1 H') as [?|?]; auto.
Qed.

Ltac solve_grows :=
  unfold grows, task_le, same_identity; unfold_M; simpl;
  repeat case_match; simplify_eq/=;
  repeat split; intros; solve_objs; simplify_eq/=;
  try lia; try done; try (by eauto); try (by apply prefix_app_r).

Lemma cancel_grows (m : TrioManager) : grows m (cancel m).2.
Proof. unfold cancel. solve_grows. Qed.

Lemma done_set_grows (task : task_ref) (m : TrioManager) : grows m (done_set task m).2.
Proof. unfold done_set. solve_grows. Qed.

Lemma errors_append_grows (e : exn) (m : TrioManager) : grows m (errors_append e m).2.
Proof. unfold errors_append. solve_grows. Qed.

Lemma set_trio_task_grows (task : task_ref) (v : trio_task_id) (m : TrioManager) :
  grows m (set_trio_task task v m).2.
Proof. unfold set_trio_task. solve_grows. Qed.

Lemma run_acquire_grows (m : TrioManager) : grows m (run_acquire m).2.
Proof. unfold run_acquire. solve_grows. Qed.

Lemma run_start_grows (m : TrioManager) : grows m (run_start m).2.
Proof.
  unfold run_start, run_open_task_nursery, task_nursery_start_soon. solve_grows.
Qed.

Lemma run_leave_grows (exit : completion unit) (m : TrioManager) :
  grows m (run_leave exit m).2.
Proof.
  rewrite run_leave_state. unfold errors_after.
  destruct exit as [[]|e]; [|destruct (is_Exception e)]; solve_grows.
Qed.

Lemma handle_run_enter_grows (current_task : trio_task_id) (m : TrioManager) :
  grows m (handle_run_enter current_task m).2.
Proof. unfold handle_run_enter, new_Task. solve_grows. Qed.

Lemma managed_outcome_grows (body : completion unit) (daemon : bool) (name : string)
    (task : task_ref) (m : TrioManager) :
  grows m (managed_outcome body daemon name task m).2.
Proof.
  unfold managed_outcome.
  destruct body as [[]|e]; [destruct daemon|destruct (is_Exception e)]; simpl.
  - eapply grows_trans; [apply cancel_grows|apply done_set_grows].
  - apply done_set_grows.
  - eapply grows_trans; [apply errors_append_grows|].
    eapply grows_trans; [apply cancel_grows|apply done_set_grows].
  - apply done_set_grows.
Qed.

Lemma handle_run_body_grows (body : completion unit) (task : task_ref) (m : TrioManager) :
  grows m (handle_run_body (λ m, (body, m)) task m).2.
Proof.
  rewrite handle_run_body_state.
  destruct (leave_scope _ _) as [[]|e]; [|destruct (is_Exception e)].
  - apply done_set_grows.
  - eapply grows_trans; [apply errors_append_grows|].
    eapply grows_trans; [apply cancel_grows|apply done_set_grows].
  - apply done_set_grows.
Qed.

Lemma _handle_cancelled_grows (h h' : handler_state) (m m' : TrioManager) :
  _handle_cancelled h m = Some (h', m') → grows m m'.
Proof.
  unfold _handle_cancelled, cancel_scope_cancel, task_nursery_cancel.
  intros H. destruct h as [| snap v [|t r] | snap v t r |];
    repeat case_match; simplify_eq/=; solve_grows.
Qed.

Lemma dag_le_refl (m : TrioManager) : dag_le m m.
Proof. split; [done|]. by intros k. Qed.

Lemma dag_le_trans (m1 m2 m3 : TrioManager) : dag_le m1 m2 → dag_le m2 m3 → dag_le m1 m3.
Proof.
  intros [K1 C1] [K2 C2]. split; [by etrans|].
  intros k. etrans; [apply C1|apply C2].
Qed.

Lemma dag_le_same (m m' : TrioManager) :
  _service_task_dag m' = _service_task_dag m → dag_le m m'.
Proof. intros H. unfold dag_le. rewrite H. split; [done|]. by intros k. Qed.

Lemma creates_dag_le (s s' : System) (task : task_ref) (par : option task_ref) :
  dag_wf s → creates (mgr s) (mgr s') task par →
  (∀ p, par = Some p → p ∈ dict_keys (_service_task_dag (mgr s))) →
  dag_le (mgr s) (mgr s') ∧ (children_nodup (mgr s) → children_nodup (mgr s')).
Proof.
  intros Hwf Hcr Hpar.
  assert (task ∉ dict_keys (_service_task_dag (mgr s))) as Hfresh.
  { destruct Hcr as (-> & _). intros Hin%(wf_fresh s Hwf). lia. }
  destruct (creates_dag _ _ _ _ Hcr Hfresh Hpar) as [Hkeys Hch].
  split; [split|].
  - rewrite Hkeys. by apply prefix_app_r.
  - intros k. rewrite Hch.
    destruct (decide (k = task)) as [->|Hk].
    + rewrite dag_children_not_key by done. apply prefix_nil.
    + destruct (decide (par = Some k)); [by apply prefix_app_r|done].
  - intros Hnd p. rewrite Hch.
    destruct (decide (p = task)); [constructor|].
    destruct (decide (par = Some p)); [|apply Hnd].
    apply list.NoDup_app. split; [apply Hnd|]. split; [|apply NoDup_singleton].
    intros c Hc Hc'%list_elem_of_singleton. subst c.
    by destruct (dag_ordered_child_key _ _ _ (wf_ordered s Hwf) Hc) as [? _].
Qed.

Section Growth.

Variable get_task_name : nameable → option string → string.

Lemma run_task_grows (current_task : trio_task_id) (async_fn : callable)
    (daemon : bool) (name : option string) (m : TrioManager) :
  grows m (run_task get_task_name current_task async_fn daemon name m).2.
Proof.
  unfold run_task, new_Task, dag_append, task_nursery_start_soon, pass. solve_grows.
Qed.

Lemma step_grows (l : label) (s s' : System) :
  step get_task_name l s = Some s' → grows (mgr s) (mgr s').
Proof.
  intros H. unfold step in H.
  destruct l as [| |exit|cur|body|sp cur|sp body|cur fn dmn nm| |];
    cbv beta iota zeta in H; repeat case_match; simplify_eq; cbn [mgr].
  - apply run_acquire_grows.
  - apply run_start_grows.
  - apply run_leave_grows.
  - match goal with
    | H : handle_run_enter ?c ?m = (_, ?m') |- _ =>
        pose proof (handle_run_enter_grows c m) as Hg; by rewrite H in Hg
    end.
  - apply handle_run_body_grows.
  - apply set_trio_task_grows.
  - rewrite managed_body_outcome. apply managed_outcome_grows.
  - apply run_task_grows.
  - apply cancel_grows.
  - by eapply _handle_cancelled_grows.
Qed.

Lemma step_dag_le (l : label) (s s' : System) :
  step get_task_name l s = Some s' → dag_wf s →
  dag_le (mgr s) (mgr s') ∧ (children_nodup (mgr s) → children_nodup (mgr s')).
Proof.
  intros [[_ [_ [Hd _]]] _ _ | [_ [_ [Hd _]]] _ _ | _ _ Hm _ _ | exit _ _ Hm _ _
         | task cur _ Hcr _ _ _ | task cur fn dm nm _ _ _ Hcr _ _]%step_kinds Hwf.
  - split; [by apply dag_le_same|]. unfold children_nodup. by rewrite Hd.
  - split; [by apply dag_le_same|]. unfold children_nodup. by rewrite Hd.
  - split; [apply dag_le_same; by rewrite Hm|]. unfold children_nodup. by rewrite Hm.
  - split; [apply dag_le_same; by rewrite Hm, run_leave_state|].
    unfold children_nodup. by rewrite Hm, run_leave_state.
  - by apply (creates_dag_le s s' task None).
  - apply (creates_dag_le s s' task (_get_parent_task (mgr s) cur)); auto.
    intros p Hp. by apply (get_parent_task_key _ cur).
Qed.

(** X5. The events of a manager are one-shot: along every schedule, an event
    among [started], [cancelled], [stopping] and [finished] that is set stays
    set. *)
Theorem events_one_shot (ls : list label) (s s' : System) :
  exec get_task_name ls s = Some s' → events_le (mgr s) (mgr s').
Proof.
  revert s. induction ls as [|l ls IH]; intros s; cbn [exec].
  - intros [= <-]. by repeat split.
  - destruct (step get_task_name l s) as [s1|] eqn:Hstep; [|done].
    intros Hex. pose proof (step_events get_task_name _ _ _ Hstep) as (A & B & C & D).
    destruct (IH s1 Hex) as (A' & B' & C' & D'). repeat split; auto.
Qed.

(** X8. The error buffer is only appended to: along every schedule, the
    errors captured so far stay in the buffer, in the same order, and new
    ones come after them. *)
Theorem errors_append_only (ls : list label) (s s' : System) :
  exec get_task_name ls s = Some s' → _errors (mgr s) `prefix_of` _errors (mgr s').
Proof.
  revert s. induction ls as [|l ls IH]; intros s; cbn [exec].
  - by intros [= <-].
  - destruct (step get_task_name l s) as [s1|] eqn:Hstep; [|done].
    intros Hex. etrans; [|by apply IH].
    by destruct (step_grows _ _ _ Hstep) as (_ & _ & ? & _).
Qed.

Lemma exec_grows (ls : list label) (s s' : System) :
  exec get_task_name ls s = Some s' → dag_wf s →
  grows (mgr s) (mgr s') ∧ dag_le (mgr s) (mgr s') ∧ dag_wf s' ∧
  (children_nodup (mgr s) → children_nodup (mgr s')).
Proof.
  revert s. induction ls as [|l ls IH]; intros s; cbn [exec].
  - intros [= <-] Hwf. split; [apply grows_refl|]. split; [apply dag_le_refl|done].
  - destruct (step get_task_name l s) as [s1|] eqn:Hstep; [|done].
    intros Hex Hwf.
    pose proof (step_dag_wf get_task_name _ _ _ Hstep Hwf) as Hwf1.
    destruct (IH s1 Hex Hwf1) as (G & D & W & N).
    destruct (step_dag_le _ _ _ Hstep Hwf) as [D1 N1].
    split; [eapply grows_trans; [by eapply step_grows|done]|].
    split; [by eapply dag_le_trans|]. split; [done|auto].
Qed.

(** X6. Nothing is removed from the DAG and nothing is reset on a task.
    Along every schedule from a reachable state, the nodes of the DAG stay,
    in the same order, and new ones come after them; every child list is
    only extended at its end; and every node keeps its name, its daemon flag
    and its parent, its [done] event once set, the cancellation of its scope
    once requested, and its Trio task once recorded. *)
Theorem dag_and_tasks_only_grow (ls : list label) (s s' : System) :
  reachable get_task_name s → exec get_task_name ls s = Some s' →
  dict_keys (_service_task_dag (mgr s)) `prefix_of` dict_keys (_service_task_dag (mgr s')) ∧
  (∀ k, dag_children (_service_task_dag (mgr s)) k
          `prefix_of` dag_children (_service_task_dag (mgr s')) k) ∧
  (∀ k, k ∈ dict_keys (_service_task_dag (mgr s)) →
        task_le (objs (mgr s) k) (objs (mgr s') k)).
Proof.
  intros Hreach Hex.
  destruct (reachable_inv get_task_name s Hreach) as [Hwf _].
  destruct (exec_grows ls s s' Hex Hwf) as ((_ & Ht & _) & [Hk Hc] & _).
  split; [done|]. split; [done|].
  intros k Hin. apply Ht. by apply (wf_fresh s Hwf).
Qed.

Lemma reachable_children_nodup (s : System) :
  reachable get_task_name s → children_nodup (mgr s).
Proof.
  induction 1 as [self_ref cls service|l s s' Hreach IH Hstep].
  - intros p. constructor.
  - destruct (reachable_inv get_task_name s Hreach) as [Hwf _].
    by apply (step_dag_le l s s' Hstep Hwf).
Qed.

(** X7. In every reachable state the DAG is a forest in insertion order: its
    keys are distinct; the children of a node are keys that were inserted
    after it, so no node is its own child; no child list names a node twice;
    and a node is in the child list of at most one node. *)
Theorem dag_is_forest (s : System) :
  reachable get_task_name s →
  let d := _service_task_dag (mgr s) in
  NoDup (dict_keys d) ∧
  (∀ i p c, dict_keys d !! i = Some p → c ∈ dag_children d p →
            ∃ j, (i < j)%nat ∧ dict_keys d !! j = Some c) ∧
  (∀ p c, c ∈ dag_children d p → c ≠ p ∧ p ∈ dict_keys d ∧ c ∈ dict_keys d) ∧
  (∀ p, NoDup (dag_children d p)) ∧
  (∀ p p' c, c ∈ dag_children d p → c ∈ dag_children d p' → p = p').
Proof.
  intros Hreach d.
  destruct (reachable_inv get_task_name s Hreach) as [[H1 H2 H3 H4 H5 H6] _].
  fold d in H1, H2, H3, H4, H5, H6.
  split; [done|]. split; [done|]. split; [|split].
  - intros p c Hc. destruct (dag_ordered_child_key d p c H3 Hc) as [Hck Hpk].
    split; [|done]. intros ->.
    apply list_elem_of_lookup in Hpk as [i Hi].
    destruct (H3 i p p Hi Hc) as (j & Hij & Hj).
    assert (i = j) by (by eapply NoDup_lookup). lia.
  - by apply reachable_children_nodup.
  - intros p p' c Hc Hc'. apply H5 in Hc, Hc'. congruence.
Qed.


End Growth.

(** ** The handler runs through *)

Lemma cancel_scope_cancel_state (task : task_ref) (m : TrioManager) :
  let m' := (cancel_scope_cancel task m).2 in
  cancel_scope (objs m' task) = true ∧
  (∀ t, t ≠ task → objs m' t = objs m t) ∧
  (∀ t, done (objs m' t) = done (objs m t)) ∧
  (∀ t, cancel_scope (objs m t) = true → cancel_scope (objs m' t) = true) ∧
  _task_nursery m' = _task_nursery m ∧
  _service_task_dag m' = _service_task_dag m ∧
  _errors m' = _errors m.
Proof.
  unfold cancel_scope_cancel. unfold_M. simpl. repeat split.
  - by rewrite fn_lookup_insert.
  - intros t Ht. by rewrite fn_lookup_insert_ne.
  - intros t. solve_objs.
  - intros t. solve_objs.
Qed.

(** X10. The cancellation handler deals with one node at a time.  If the
    node at the head of its loop is not done, the handler requests the
    cancellation of that node and then stays suspended: it does not go on to
    the next node.  If the nodes still to come are all done, the handler runs
    through without being suspended, in two segments per node and one more:
    it requests the cancellation of each of them, cancels the task nursery
    and returns, and changes nothing else. *)
Theorem handler_runs_through (snap : Dag) (visited rest : list task_ref)
    (m : TrioManager) :
  (∀ task rest' n, rest = task :: rest' → done_is_set m task = false →
     handle_cancelled_steps (S n) (Iterating snap visited rest) m
       = (WaitDone snap visited task rest', (cancel_scope_cancel task m).2)) ∧
  ((∀ t, t ∈ rest → done_is_set m t = true) →
   ∃ m', handle_cancelled_steps (2 * length rest + 1) (Iterating snap visited rest) m
           = (Returned, m') ∧
         (∀ t, t ∈ rest → cancel_scope (objs m' t) = true) ∧
         (∀ t, t ∉ rest → objs m' t = objs m t) ∧
         (∀ t, done (objs m' t) = done (objs m t)) ∧
         _task_nursery m' = nursery_cancel <$> _task_nursery m ∧
         _service_task_dag m' = _service_task_dag m ∧
         _errors m' = _errors m).
Proof.
  split.
  - intros task rest' n -> Hd. cbn [handle_cancelled_steps _handle_cancelled].
    destruct (cancel_scope_cancel_state task m) as (_ & _ & Hdone & _).
    destruct n as [|n]; [done|]. cbn [handle_cancelled_steps _handle_cancelled].
    unfold done_is_set in *. by rewrite Hdone, Hd.
  - revert visited m. induction rest as [|task rest IH]; intros visited m Hall.
    + simpl. unfold task_nursery_cancel. unfold_M.
      destruct (_task_nursery m) as [n|] eqn:Hn; simpl;
        (eexists; split; [reflexivity|]); simpl; rewrite ?Hn; repeat split; auto;
        by intros t ?%elem_of_nil.
    + replace (2 * length (task :: rest) + 1)%nat
        with (S (S (2 * length rest + 1))) by (simpl; lia).
      cbn [handle_cancelled_steps _handle_cancelled].
      destruct (cancel_scope_cancel_state task m) as (Hc & Hother & Hdone & Hmono & Hn & Hd & He).
      set (m1 := (cancel_scope_cancel task m).2) in *.
      assert (done_is_set m1 task = true) as ->.
      { unfold done_is_set. rewrite Hdone. apply Hall. left. }
      destruct (IH (visited ++ [task]) m1) as (m' & Hrun & Hc' & Ho' & Hd' & Hn' & Hdag' & He').
      { intros t Ht. unfold done_is_set. rewrite Hdone. apply Hall. by right. }
      exists m'. split; [done|]. repeat split.
      * intros t [Heq|Ht]%elem_of_cons; [subst t|by apply Hc'].
        destruct (decide (task ∈ rest)); [by apply Hc'|]. by rewrite Ho'.
      * intros t [Hne Hnin]%not_elem_of_cons. rewrite Ho' by done. by apply Hother.
      * intros t. by rewrite Hd'.
      * by rewrite Hn', Hn.
      * by rewrite Hdag'.
      * by rewrite He'.
Qed.

Lemma handler_runs_through_witness :
  ∃ m', handle_cancelled_steps 5 (Iterating [(0, [1]); (1, [])]%nat [] [1; 0]%nat)
          (manager_with_nodes [(0, true); (1, true)]%nat) = (Returned, m') ∧
        cancel_scope (objs m' 0%nat) = true ∧ cancel_scope (objs m' 1%nat) = true.
Proof.
  destruct (handler_runs_through [(0, [1]); (1, [])]%nat [] [1; 0]%nat
              (manager_with_nodes [(0, true); (1, true)]%nat)) as [_ H].
  destruct H as (m' & Hrun & Hc & _).
  - intros t Ht.
    repeat (apply elem_of_cons in Ht as [->|Ht]; [reflexivity|]).
    by apply elem_of_nil in Ht.
  - exists m'. split; [exact Hrun|]. split; apply Hc; [right; left|left].
Defined.

(** ** More examples *)

Lemma events_one_shot_witness :
  after schedule_task_fails (λ s,
    events_le (mgr (initial 0 0 0)) (mgr s) ∧ is_cancelled (mgr s) = true).
Proof.
  apply after_intro; [by vm_compute|]. intros s He _.
  split; [exact (events_one_shot example_task_name _ _ _ He)|].
  observe He (λ s, is_cancelled (mgr s)). done.
Defined.

Lemma errors_append_only_witness :
  after schedule_task_fails (λ s,
    _errors (mgr (initial 0 0 0)) `prefix_of` _errors (mgr s) ∧
    _errors (mgr s) = [sys_exc_info (UserError 1)]).
Proof.
  apply after_intro; [by vm_compute|]. intros s He _.
  split; [exact (errors_append_only example_task_name _ _ _ He)|].
  observe He (λ s, _errors (mgr s)). done.
Defined.

Lemma dag_and_tasks_only_grow_witness :
  after schedule_task_fails (λ s,
    dict_keys (_service_task_dag (mgr (initial 0 0 0)))
      `prefix_of` dict_keys (_service_task_dag (mgr s)) ∧
    (∀ k, dag_children (_service_task_dag (mgr (initial 0 0 0))) k
            `prefix_of` dag_children (_service_task_dag (mgr s)) k) ∧
    (∀ k, k ∈ dict_keys (_service_task_dag (mgr (initial 0 0 0))) →
          task_le (objs (mgr (initial 0 0 0)) k) (objs (mgr s) k))).
Proof.
  apply after_intro; [by vm_compute|]. intros s He _.
  exact (dag_and_tasks_only_grow example_task_name _ _ _
           (reachable_initial _ 0 0 0) He).
Defined.

Lemma dag_is_forest_witness :
  after schedule_nested (λ s,
    NoDup (dict_keys (_service_task_dag (mgr s))) ∧
    ∀ p, NoDup (dag_children (_service_task_dag (mgr s)) p)).
Proof.
  apply after_intro; [by vm_compute|]. intros s He Hreach.
  destruct (dag_is_forest example_task_name s Hreach) as (H1 & _ & _ & H2 & _).
  split; [exact H1|exact H2].
Defined.


(** ** Who cancels, and who ends *)

Lemma same_ending_trans (m1 m2 m3 : TrioManager) :
  same_ending m1 m2 → same_ending m2 m3 → same_ending m1 m3.
Proof. intros [A B] [C D]. split; congruence. Qed.

Lemma same_scopes_trans (m1 m2 m3 : TrioManager) :
  same_scopes m1 m2 → same_scopes m2 m3 → same_scopes m1 m3.
Proof.
  intros [N1 S1] [N2 S2]. split; [lia|].
  intros t Ht. rewrite S2 by lia. by apply S1.
Qed.

Ltac solve_calm :=
  unfold same_ending, same_scopes; unfold_M; simpl;
  repeat case_match; simplify_eq/=;
  repeat split; intros; solve_objs; simplify_eq/=; try lia; try done.

Lemma cancel_calm (m : TrioManager) :
  same_ending m (cancel m).2 ∧ same_scopes m (cancel m).2.
Proof. unfold cancel. solve_calm. Qed.

Lemma done_set_calm (task : task_ref) (m : TrioManager) :
  same_ending m (done_set task m).2 ∧ same_scopes m (done_set task m).2.
Proof. unfold done_set. solve_calm. Qed.

Lemma errors_append_calm (e : exn) (m : TrioManager) :
  same_ending m (errors_append e m).2 ∧ same_scopes m (errors_append e m).2.
Proof. unfold errors_append. solve_calm. Qed.

Lemma calm_trans (m1 m2 m3 : TrioManager) :
  same_ending m1 m2 ∧ same_scopes m1 m2 → same_ending m2 m3 ∧ same_scopes m2 m3 →
  same_ending m1 m3 ∧ same_scopes m1 m3.
Proof.
  intros [A B] [C D]. split; [by eapply same_ending_trans|by eapply same_scopes_trans].
Qed.

Lemma managed_outcome_calm (body : completion unit) (daemon : bool) (name : string)
    (task : task_ref) (m : TrioManager) :
  same_ending m (managed_outcome body daemon name task m).2 ∧
  same_scopes m (managed_outcome body daemon name task m).2.
Proof.
  unfold managed_outcome.
  destruct body as [[]|e]; [destruct daemon|destruct (is_Exception e)]; simpl.
  - eapply calm_trans; [apply cancel_calm|apply done_set_calm].
  - apply done_set_calm.
  - eapply calm_trans; [apply errors_append_calm|].
    eapply calm_trans; [apply cancel_calm|apply done_set_calm].
  - apply done_set_calm.
Qed.

Lemma handle_run_body_calm (body : completion unit) (task : task_ref) (m : TrioManager) :
  same_ending m (handle_run_body (λ m, (body, m)) task m).2 ∧
  same_scopes m (handle_run_body (λ m, (body, m)) task m).2.
Proof.
  rewrite handle_run_body_state.
  destruct (leave_scope _ _) as [[]|e]; [|destruct (is_Exception e)].
  - apply done_set_calm.
  - eapply calm_trans; [apply errors_append_calm|].
    eapply calm_trans; [apply cancel_calm|apply done_set_calm].
  - apply done_set_calm.
Qed.

Section Calm.

Variable get_task_name : nameable → option string → string.

Lemma step_calm (l : label) (s s' : System) :
  step get_task_name l s = Some s' →
  (is_Run_leave l = false → same_ending (mgr s) (mgr s')) ∧
  (is_Run_leave l = true → _stopping (mgr s') = true ∧ _finished (mgr s') = true) ∧
  (is_Handler_step l = false → same_scopes (mgr s) (mgr s')).
Proof.
  intros H. unfold step in H.
  destruct l as [| |exit|cur|body|sp cur|sp body|cur fn dmn nm| |];
    cbv beta iota zeta in H; repeat case_match; simplify_eq; cbn [mgr];
    (split; [|split]); try done; intros _;
    try match goal with
    | H : handle_run_enter ?c ?m = (_, ?m') |- _ =>
        unfold handle_run_enter, new_Task in H; unfold_M; simpl in H; simplify_eq
    | H : _handle_cancelled ?h ?m = Some _ |- _ =>
        unfold _handle_cancelled, cancel_scope_cancel, task_nursery_cancel in H;
        destruct h as [| ? ? [|? ?] | ? ? ? ? |]; repeat case_match; simplify_eq/=
    end;
    first
      [ apply handle_run_body_calm
      | rewrite managed_body_outcome; apply managed_outcome_calm
      | apply cancel_calm
      | rewrite run_leave_state; solve_calm; fail
      | unfold run_acquire, run_start, run_open_task_nursery, set_trio_task,
          run_task, new_Task, dag_append, task_nursery_start_soon, pass;
        solve_calm ].
Qed.

(** X15. [stopping] and [finished] are set together, by the end of [run] and
    by nothing else, so in every reachable state they are equal: a task never
    observes [is_stopping] true, and the manager is running exactly when it
    is started and not finished. *)
Theorem stopping_and_finished_together (s : System) :
  reachable get_task_name s →
  _stopping (mgr s) = _finished (mgr s) ∧
  is_stopping (mgr s) = false ∧
  is_running (mgr s) = is_started (mgr s) && negb (is_finished (mgr s)) ∧
  ∀ l s', step get_task_name l s = Some s' → is_Run_leave l = false →
          _stopping (mgr s') = _stopping (mgr s) ∧ _finished (mgr s') = _finished (mgr s).
Proof.
  intros Hreach.
  assert (_stopping (mgr s) = _finished (mgr s)) as Heq.
  { induction Hreach as [self_ref cls service|l s s' Hreach IH Hstep]; [done|].
    destruct (step_calm l s s' Hstep) as (H1 & H2 & _).
    destruct (is_Run_leave l) eqn:Hl.
    - destruct (H2 eq_refl) as [-> ->]. done.
    - destruct (H1 eq_refl) as [-> ->]. done. }
  split; [done|]. split; [|split].
  - unfold is_stopping, is_finished. rewrite Heq. by destruct (_finished (mgr s)).
  - unfold is_running, is_started, is_finished. rewrite Heq.
    by destruct (_started (mgr s)), (_finished (mgr s)).
  - intros l s' Hstep Hl. by apply (step_calm l s s' Hstep).
Qed.

(** X16. Only the cancellation handler cancels the scope of a task: no other
    step of the system (a call of [cancel], a task that fails, a daemon that
    exits, the end of [run]) changes the cancel scope of a task that exists;
    and a new task starts with a scope that is not cancelled. *)
Theorem only_the_handler_cancels_tasks (l : label) (s s' : System) :
  step get_task_name l s = Some s' → is_Handler_step l = false →
  (∀ t, (t < next_ref (mgr s))%nat →
        cancel_scope (objs (mgr s') t) = cancel_scope (objs (mgr s) t)) ∧
  (∀ t, (next_ref (mgr s) ≤ t < next_ref (mgr s'))%nat →
        cancel_scope (objs (mgr s') t) = false).
Proof.
  intros Hstep Hl.
  destruct (step_calm l s s' Hstep) as (_ & _ & H). destruct (H Hl) as [Hn Hs].
  split; [done|].
  intros t Ht.
  pose proof Hstep as
    [[_ [_ [_ [Hnx _]]]] _ _ | [_ [_ [_ [Hnx _]]]] _ _ | _ _ Hm _ _ | exit _ _ Hm _ _
    | task cur Hlab Hcr _ _ _ | task cur fn dm nm Hlab Hrun Hcan Hcr _ _]%step_kinds;
    try (rewrite ?Hm, ?run_leave_state in Ht; simpl in Ht; lia).
  - clear Hs. unfold step in Hstep. subst l. cbv beta iota zeta in Hstep.
    repeat case_match; simplify_eq.
    match goal with
    | H : handle_run_enter ?c ?m = (_, ?m') |- _ =>
        unfold handle_run_enter, new_Task in H; unfold_M; simpl in H; simplify_eq
    end. simpl in *. assert (t = next_ref (mgr s)) as -> by lia.
    by rewrite fn_lookup_insert.
  - clear Hs. destruct Hcr as (-> & Hnext & _). rewrite Hnext in Ht.
    assert (t = next_ref (mgr s)) as -> by lia.
    unfold step in Hstep. subst l. cbv beta iota zeta in Hstep. simplify_eq. cbn [mgr].
    unfold run_task, new_Task, dag_append, task_nursery_start_soon, pass.
    rewrite Hrun, Hcan. unfold_M. simpl. repeat case_match; simplify_eq/=;
      rewrite ?fn_lookup_insert; done.
Qed.

End Calm.

Lemma stopping_and_finished_together_witness :
  after schedule_task_fails (λ s,
    is_stopping (mgr s) = false ∧
    is_running (mgr s) = is_started (mgr s) && negb (is_finished (mgr s))).
Proof.
  apply after_intro; [by vm_compute|]. intros s He Hreach.
  destruct (stopping_and_finished_together example_task_name s Hreach)
    as (_ & H1 & H2 & _).
  split; [exact H1|exact H2].
Defined.

Lemma only_the_handler_cancels_tasks_witness :
  match step example_task_name Call_cancel system_with_child with
  | Some s' =>
      cancel_scope (objs (mgr s') 1%nat) =
      cancel_scope (objs (mgr system_with_child) 1%nat)
  | None => False
  end.
Proof.
  destruct (step _ _ _) as [s'|] eqn:Hstep.
  - pose proof (only_the_handler_cancels_tasks example_task_name Call_cancel
                  system_with_child s' Hstep eq_refl) as [H _].
    apply H. vm_compute. lia.
  - apply (f_equal (λ o : option System, bool_decide (is_Some o))) in Hstep.
    vm_compute in Hstep. discriminate Hstep.
Defined.
